(** * fabric-ca server: bootstrap, quota and affiliation loading

    A shallow embedding of [lib/server.go] (the server life cycle, the
    enrollment quota policy and the affiliation loader) and of the
    [initMain] command, with the properties of the specification that
    concern them.

    Conventions of the embedding.
    - A Go [int] is a [Z]; the code only compares and copies such values.
    - A Go [string] is a [string]; [[]byte] is a [list byte].
    - A Go [error] is an [option error] ([None] is [nil]); a pointer or an
      interface value that may be [nil] is an [option].
    - A Go map that the code ranges over is the list of its entries in the
      order in which the [range] statement yields them.  Go leaves that
      order unspecified, so a statement over all lists covers every order.
    - Statements run in the monad [M]: explicit state passing over a
      [World], with three ways to finish (return, panic, process exit). *)

From Stdlib Require Import ZArith List String Ascii Lia.
From Stdlib Require Import Strings.Byte.
From stdpp Require Import base strings gmap list pretty.

Local Open Scope string_scope.

(** ** Errors, formatting and panics *)

(** An error value keeps the format and the operands it was built from,
    so that theorems can tell the causes apart without rendering text. *)
Inductive error : Type :=
| Errorf (format : string) (args : list fmtarg)   (* fmt.Errorf *)
| ErrorsNew (msg : string)                        (* errors.New *)
| ExtError (origin msg : string)                  (* made by another package *)
with fmtarg : Type :=
| FStr (s : string)
| FInt (n : Z)
| FErr (e : option error)
| FVal (shown : string).                          (* a value printed with %v, %+v, %#v *)

(** [fmt.Sprintf] restricted to the verb [%s] over string operands, which
    is all that [affiliationPath] uses.  A missing operand and operands
    left over are rendered the way package fmt does. *)
Fixpoint extra_operands (args : list string) : string :=
  match args with
  | [] => ""
  | [a] => "string=" +:+ a
  | a :: rest => "string=" +:+ a +:+ ", " +:+ extra_operands rest
  end.

Fixpoint Sprintf (format : string) (args : list string) : string :=
  match format with
  | EmptyString =>
      match args with
      | [] => ""
      | _ => "%!(EXTRA " +:+ extra_operands args +:+ ")"
      end
  | String "%" (String "s" rest) =>
      match args with
      | a :: args' => a +:+ Sprintf rest args'
      | [] => "%!s(MISSING)" +:+ Sprintf rest []
      end
  | String c rest => String c (Sprintf rest args)
  end.

(** What a goroutine can panic with in this code. *)
Inductive panicval : Type :=
| NilDereference                          (* invalid memory address or nil pointer dereference *)
| TypeAssertion (dynamic wanted : string) (* interface conversion: interface {} is X, not Y *)
| PanicError (e : error)                  (* panic(err) *)
| PanicString (msg : string).             (* panic("...") raised by net/http *)

Inductive outcome (A : Type) : Type :=
| Ret (a : A)
| Panic (v : panicval)
| Exit (code : Z).

Arguments Ret {A} a.
Arguments Panic {A} v.
Arguments Exit {A} code.

(** ** The state monad with abrupt termination *)

Definition M (W A : Type) : Type := W -> outcome A * W.

Definition ret {W A} (a : A) : M W A := fun w => (Ret a, w).

Definition bind {W A B} (c : M W A) (k : A -> M W B) : M W B :=
  fun w =>
    match c w with
    | (Ret a, w') => k a w'
    | (Panic v, w') => (Panic v, w')
    | (Exit n, w') => (Exit n, w')
    end.

Definition panic {W A} (v : panicval) : M W A := fun w => (Panic v, w).
Definition exit {W A} (code : Z) : M W A := fun w => (Exit code, w).
Definition get {W} : M W W := fun w => (Ret w, w).
Definition gets {W A} (f : W -> A) : M W A := fun w => (Ret (f w), w).
Definition modify {W} (f : W -> W) : M W unit := fun w => (Ret tt, f w).

Declare Scope go_scope.
Delimit Scope go_scope with go.
Notation "'let*' x := c 'in' k" := (bind c (fun x => k))
  (at level 10, x name, c at level 100, k at level 200) : go_scope.
Notation "'let*' ' pat := c 'in' k" :=
  (bind c (fun x => match x with pat => k end))
  (at level 10, pat pattern, c at level 100, k at level 200) : go_scope.
Notation "c ;; k" := (bind c (fun _ => k))
  (at level 100, right associativity) : go_scope.
Local Open Scope go_scope.

(** [if err != nil { return err }] followed by the rest of the body. *)
Definition or_return {W} (err : option error) (k : M W (option error))
  : M W (option error) :=
  match err with
  | Some e => ret (Some e)
  | None => k
  end.

(** [for _, x := range l { err := body(x); if err != nil { return err } }]
    followed by the rest of the body. *)
Definition range_until_error {W A} (body : A -> M W (option error)) :=
  fix loop (l : list A) (k : M W (option error)) : M W (option error) :=
    match l with
    | [] => k
    | x :: l' => let* err := body x in or_return err (loop l' k)
    end.

(** ** affiliationPath *)

Definition affiliationPath (name parent : string) : string :=
  if decide (parent = "") then name
  else Sprintf "%s.%s" [parent; name].


(** ** Configuration data

    [ServerConfig] and the structures it contains are declared in other
    files of package lib; the records below have the fields that
    [server.go] reads or writes, with the types that those uses require.  Field names carry the name of their structure as
    a prefix because record fields share one name space. *)

(** A value of a dynamic type that the affiliation loader's type switch
    does not name. *)
Inductive other_value : Type :=
| VInt (n : Z)
| VBool (b : bool)
| VOpaque (type_name : string).

Definition dynamic_type (v : other_value) : string :=
  match v with
  | VInt _ => "int"
  | VBool _ => "bool"
  | VOpaque t => t
  end.

(** An [interface{}] as the affiliation loader receives it. *)
#[local] Set Warnings "-register-all".
Inductive Node : Type :=
| NNil                                     (* nil *)
| NString (s : string)                     (* string *)
| NStrings (l : list string)               (* []string *)
| NList (l : list Node)                    (* []interface{} *)
| NMap (entries : list (string * Node))    (* map[string]interface{} *)
| NOther (v : other_value).                (* anything else *)
#[local] Set Warnings "register-all".

Record ServerConfigIdentity : Type := {
  id_ID : string;
  id_Pass : string;
  id_Type : string;
  id_Affiliation : string;
  id_MaxEnrollments : Z;
  id_Attributes : list (string * string)
}.

Record ServerConfigRegistry : Type := {
  reg_MaxEnrollments : Z;
  reg_Identities : list ServerConfigIdentity
}.

Record ServerConfigCA : Type := { ca_Keyfile : string; ca_Certfile : string }.

Record ServerConfigTLS : Type := {
  tls_Enabled : bool;
  tls_CertFile : string;
  tls_KeyFile : string
}.

Record ClientTLSConfig : Type := {
  ctls_Enabled : bool;
  ctls_CertFiles : list string
}.

Record ServerConfigDB : Type := {
  db_Type : string;
  db_Datasource : string;
  db_TLS : ClientTLSConfig
}.

Record ldap_Config : Type := { ldap_Enabled : bool; ldap_URL : string }.

Record csr_Name : Type := { name_C : string; name_ST : string; name_L : string;
                            name_O : string; name_OU : string }.
Record csr_CAConfig : Type := { ca_PathLength : Z; ca_Expiry : string }.
Record csr_BasicKeyRequest : Type := { kr_A : string; kr_S : Z }.

Record CSRInfo : Type := {
  csr_CN : string;
  csr_Names : list csr_Name;
  csr_Hosts : list string;
  csr_CA : option csr_CAConfig;
  csr_SerialNumber : string
}.

Record CertificateRequest : Type := {
  req_CN : string;
  req_Names : list csr_Name;
  req_Hosts : list string;
  req_KeyRequest : option csr_BasicKeyRequest;
  req_CA : option csr_CAConfig;
  req_SerialNumber : string
}.

(** csr.NewBasicKeyRequest: ECDSA over a 256-bit curve. *)
Definition NewBasicKeyRequest : csr_BasicKeyRequest :=
  {| kr_A := "ecdsa"; kr_S := 256 |}.

Record SigningProfile : Type := {
  prof_Usage : list string;
  prof_ExpiryString : string;
  prof_RemoteServer : string
}.

Record config_Signing : Type := {
  sign_Profiles : list (string * SigningProfile);
  sign_Default : option SigningProfile
}.

Record FactoryOpts : Type := { ProviderName : string }.

Record ServerConfig : Type := {
  cfg_Port : Z;
  cfg_Address : string;
  cfg_Debug : bool;
  cfg_TLS : ServerConfigTLS;
  cfg_CSP : option FactoryOpts;
  cfg_CA : ServerConfigCA;
  cfg_Signing : option config_Signing;
  cfg_CSR : CSRInfo;
  cfg_Registry : ServerConfigRegistry;
  cfg_Affiliations : Node;
  cfg_LDAP : ldap_Config;
  cfg_DB : ServerConfigDB;
  cfg_Remote : string
}.

(** [new(ServerConfig)]: every field at its zero value. *)
Definition zero_ServerConfig : ServerConfig := {|
  cfg_Port := 0;
  cfg_Address := "";
  cfg_Debug := false;
  cfg_TLS := {| tls_Enabled := false; tls_CertFile := ""; tls_KeyFile := "" |};
  cfg_CSP := None;
  cfg_CA := {| ca_Keyfile := ""; ca_Certfile := "" |};
  cfg_Signing := None;
  cfg_CSR := {| csr_CN := ""; csr_Names := []; csr_Hosts := [];
                csr_CA := None; csr_SerialNumber := "" |};
  cfg_Registry := {| reg_MaxEnrollments := 0; reg_Identities := [] |};
  cfg_Affiliations := NNil;
  cfg_LDAP := {| ldap_Enabled := false; ldap_URL := "" |};
  cfg_DB := {| db_Type := ""; db_Datasource := "";
               db_TLS := {| ctls_Enabled := false; ctls_CertFiles := [] |} |};
  cfg_Remote := ""
|}.

(** Field updates of [ServerConfig], one per field that the code assigns. *)
Definition set_cfg_Port (v : Z) (c : ServerConfig) : ServerConfig :=
  {| cfg_Port := v; cfg_Address := cfg_Address c; cfg_Debug := cfg_Debug c;
     cfg_TLS := cfg_TLS c; cfg_CSP := cfg_CSP c; cfg_CA := cfg_CA c;
     cfg_Signing := cfg_Signing c; cfg_CSR := cfg_CSR c;
     cfg_Registry := cfg_Registry c; cfg_Affiliations := cfg_Affiliations c;
     cfg_LDAP := cfg_LDAP c; cfg_DB := cfg_DB c; cfg_Remote := cfg_Remote c |}.

Definition set_cfg_Address (v : string) (c : ServerConfig) : ServerConfig :=
  {| cfg_Port := cfg_Port c; cfg_Address := v; cfg_Debug := cfg_Debug c;
     cfg_TLS := cfg_TLS c; cfg_CSP := cfg_CSP c; cfg_CA := cfg_CA c;
     cfg_Signing := cfg_Signing c; cfg_CSR := cfg_CSR c;
     cfg_Registry := cfg_Registry c; cfg_Affiliations := cfg_Affiliations c;
     cfg_LDAP := cfg_LDAP c; cfg_DB := cfg_DB c; cfg_Remote := cfg_Remote c |}.

Definition set_cfg_TLS (v : ServerConfigTLS) (c : ServerConfig) : ServerConfig :=
  {| cfg_Port := cfg_Port c; cfg_Address := cfg_Address c; cfg_Debug := cfg_Debug c;
     cfg_TLS := v; cfg_CSP := cfg_CSP c; cfg_CA := cfg_CA c;
     cfg_Signing := cfg_Signing c; cfg_CSR := cfg_CSR c;
     cfg_Registry := cfg_Registry c; cfg_Affiliations := cfg_Affiliations c;
     cfg_LDAP := cfg_LDAP c; cfg_DB := cfg_DB c; cfg_Remote := cfg_Remote c |}.

Definition set_cfg_CA (v : ServerConfigCA) (c : ServerConfig) : ServerConfig :=
  {| cfg_Port := cfg_Port c; cfg_Address := cfg_Address c; cfg_Debug := cfg_Debug c;
     cfg_TLS := cfg_TLS c; cfg_CSP := cfg_CSP c; cfg_CA := v;
     cfg_Signing := cfg_Signing c; cfg_CSR := cfg_CSR c;
     cfg_Registry := cfg_Registry c; cfg_Affiliations := cfg_Affiliations c;
     cfg_LDAP := cfg_LDAP c; cfg_DB := cfg_DB c; cfg_Remote := cfg_Remote c |}.

Definition set_cfg_Signing (v : option config_Signing) (c : ServerConfig)
  : ServerConfig :=
  {| cfg_Port := cfg_Port c; cfg_Address := cfg_Address c; cfg_Debug := cfg_Debug c;
     cfg_TLS := cfg_TLS c; cfg_CSP := cfg_CSP c; cfg_CA := cfg_CA c;
     cfg_Signing := v; cfg_CSR := cfg_CSR c;
     cfg_Registry := cfg_Registry c; cfg_Affiliations := cfg_Affiliations c;
     cfg_LDAP := cfg_LDAP c; cfg_DB := cfg_DB c; cfg_Remote := cfg_Remote c |}.

Definition set_cfg_CSR (v : CSRInfo) (c : ServerConfig) : ServerConfig :=
  {| cfg_Port := cfg_Port c; cfg_Address := cfg_Address c; cfg_Debug := cfg_Debug c;
     cfg_TLS := cfg_TLS c; cfg_CSP := cfg_CSP c; cfg_CA := cfg_CA c;
     cfg_Signing := cfg_Signing c; cfg_CSR := v;
     cfg_Registry := cfg_Registry c; cfg_Affiliations := cfg_Affiliations c;
     cfg_LDAP := cfg_LDAP c; cfg_DB := cfg_DB c; cfg_Remote := cfg_Remote c |}.

Definition set_cfg_Registry (v : ServerConfigRegistry) (c : ServerConfig)
  : ServerConfig :=
  {| cfg_Port := cfg_Port c; cfg_Address := cfg_Address c; cfg_Debug := cfg_Debug c;
     cfg_TLS := cfg_TLS c; cfg_CSP := cfg_CSP c; cfg_CA := cfg_CA c;
     cfg_Signing := cfg_Signing c; cfg_CSR := cfg_CSR c;
     cfg_Registry := v; cfg_Affiliations := cfg_Affiliations c;
     cfg_LDAP := cfg_LDAP c; cfg_DB := cfg_DB c; cfg_Remote := cfg_Remote c |}.

Definition set_cfg_DB (v : ServerConfigDB) (c : ServerConfig) : ServerConfig :=
  {| cfg_Port := cfg_Port c; cfg_Address := cfg_Address c; cfg_Debug := cfg_Debug c;
     cfg_TLS := cfg_TLS c; cfg_CSP := cfg_CSP c; cfg_CA := cfg_CA c;
     cfg_Signing := cfg_Signing c; cfg_CSR := cfg_CSR c;
     cfg_Registry := cfg_Registry c; cfg_Affiliations := cfg_Affiliations c;
     cfg_LDAP := cfg_LDAP c; cfg_DB := v; cfg_Remote := cfg_Remote c |}.

Definition set_ca_Certfile (v : string) (c : ServerConfig) : ServerConfig :=
  set_cfg_CA {| ca_Keyfile := ca_Keyfile (cfg_CA c); ca_Certfile := v |} c.

Definition set_ca_Keyfile (v : string) (c : ServerConfig) : ServerConfig :=
  set_cfg_CA {| ca_Keyfile := v; ca_Certfile := ca_Certfile (cfg_CA c) |} c.

Definition set_tls_CertFile (v : string) (c : ServerConfig) : ServerConfig :=
  set_cfg_TLS {| tls_Enabled := tls_Enabled (cfg_TLS c); tls_CertFile := v;
                 tls_KeyFile := tls_KeyFile (cfg_TLS c) |} c.

Definition set_tls_KeyFile (v : string) (c : ServerConfig) : ServerConfig :=
  set_cfg_TLS {| tls_Enabled := tls_Enabled (cfg_TLS c);
                 tls_CertFile := tls_CertFile (cfg_TLS c);
                 tls_KeyFile := v |} c.

Definition set_csr_CN (v : string) (c : ServerConfig) : ServerConfig :=
  set_cfg_CSR {| csr_CN := v; csr_Names := csr_Names (cfg_CSR c);
                 csr_Hosts := csr_Hosts (cfg_CSR c);
                 csr_CA := csr_CA (cfg_CSR c);
                 csr_SerialNumber := csr_SerialNumber (cfg_CSR c) |} c.

Definition set_db_Type (v : string) (c : ServerConfig) : ServerConfig :=
  set_cfg_DB {| db_Type := v; db_Datasource := db_Datasource (cfg_DB c);
                db_TLS := db_TLS (cfg_DB c) |} c.

Definition set_db_Datasource (v : string) (c : ServerConfig) : ServerConfig :=
  set_cfg_DB {| db_Type := db_Type (cfg_DB c); db_Datasource := v;
                db_TLS := db_TLS (cfg_DB c) |} c.

Definition set_reg_Identities (v : list ServerConfigIdentity) (c : ServerConfig)
  : ServerConfig :=
  set_cfg_Registry {| reg_MaxEnrollments := reg_MaxEnrollments (cfg_Registry c);
                      reg_Identities := v |} c.

(** ** Registry records (packages api and spi) *)

Record api_Attribute : Type := { attr_Name : string; attr_Value : string }.

Record spi_UserInfo : Type := {
  ui_Name : string;
  ui_Pass : string;
  ui_Type : string;
  ui_Group : string;
  ui_Attributes : list api_Attribute;
  ui_MaxEnrollments : Z
}.

(** ** Logging (package cfssl/log) *)

Inductive Level : Type :=
| LevelDebug | LevelInfo | LevelWarning | LevelError | LevelCritical | LevelFatal.

(** One call of the logger.  Whether the logger prints it depends on its
    threshold [log.Level], which the world records as well. *)
Record LogEntry : Type := {
  log_level : Level;
  log_format : string;
  log_args : list fmtarg
}.

(** File modes, written in octal digits as in the source. *)
Definition octal (owner group other : Z) : Z := (owner * 64 + group * 8 + other)%Z.

(** A mode is owner-only when it grants nothing to group and others. *)
Definition owner_only (perm : Z) : bool := (Z.land perm (octal 0 7 7) =? 0)%Z.

(** The package-level variables of [server.go], over the types of the
    objects they hold. *)
Record Globals_ (Signer UserRegistry CertDBAccessor BCCSP : Type) : Type := {
  EnrollSigner : option Signer;
  UserRegistry_ : option UserRegistry;
  MaxEnrollments : Z;
  MyCertDBAccessor : option CertDBAccessor;
  CAKeyFile : string;
  CACertFile : string;
  MyCSP : option BCCSP
}.

Arguments EnrollSigner {_ _ _ _} _.
Arguments UserRegistry_ {_ _ _ _} _.
Arguments MaxEnrollments {_ _ _ _} _.
Arguments MyCertDBAccessor {_ _ _ _} _.
Arguments CAKeyFile {_ _ _ _} _.
Arguments CACertFile {_ _ _ _} _.
Arguments MyCSP {_ _ _ _} _.

(** ** The platform

    Everything that [server.go] calls and does not define: the operating
    system, the cfssl and BCCSP libraries, the database and directory
    clients, package net/http, and other parts of the repository (package
    util, the endpoint handler constructors, the authentication wrapper,
    the registry implementations and two constants of package lib).  [E] is the state of the outside
    world; an operation that can change it returns the new state. *)
Class Platform : Type := {
  E : Type;
  BCCSP : Type;
  Signer : Type;
  Handler : Type;
  Listener : Type;
  Certificate : Type;
  DBConn : Type;
  CertDBAccessor : Type;
  spi_User : Type;
  UserRegistry : Type;
  (* constants of package lib *)
  DefaultServerAddr : string;
  DefaultServerPort : Z;
  (* operating system and package util *)
  os_Getwd : E -> string * option error;
  util_MakeFileAbs : string -> string -> E -> string * option error;
  util_FileExists : string -> E -> bool;
  util_GetDefaultConfigFile : string -> E -> string;
  filepath_Dir : string -> string;
  path_Join : string -> string -> string;
  os_MkdirAll : string -> Z -> E -> option error * E;
  ioutil_WriteFile : string -> list byte -> Z -> E -> option error * E;
  (* command line helpers of cfssl, encoding/json *)
  cli_ReadStdin : string -> E -> list byte * option error;
  json_Unmarshal : list byte -> CertificateRequest ->
                   CertificateRequest * option error;
  (* key material *)
  factory_InitFactories : option FactoryOpts -> E -> option error * E;
  factory_GetDefault : E -> option BCCSP;
  initca_New : CertificateRequest -> E ->
               (list byte * list byte * list byte * option error) * E;
  (* databases and registries *)
  dbutil_NewUserRegistrySQLLite3 :
    string -> E -> (option DBConn * bool * option error) * E;
  dbutil_NewUserRegistryPostgres :
    string -> ClientTLSConfig -> E -> (option DBConn * bool * option error) * E;
  dbutil_NewUserRegistryMySQL :
    string -> ClientTLSConfig -> E -> (option DBConn * bool * option error) * E;
  NewCertDBAccessor : option DBConn -> CertDBAccessor;
  NewDBAccessor : option DBConn -> UserRegistry;   (* new(Accessor); SetDB(db) *)
  ldap_NewClient : ldap_Config -> E -> (option UserRegistry * option error) * E;
  (* interface spi.UserRegistry *)
  registry_GetUser :
    UserRegistry -> string -> list string -> E ->
    (option spi_User * option error) * E;
  registry_InsertUser : UserRegistry -> spi_UserInfo -> E -> option error * E;
  registry_InsertGroup : UserRegistry -> string -> string -> E -> option error * E;
  (* signing *)
  config_DefaultConfig : SigningProfile;
  signing_OverrideRemotes : string -> config_Signing -> config_Signing * option error;
  universal_NewSigner :
    list (string * string) -> bool -> config_Signing -> E ->
    (option Signer * option error) * E;
  signer_SetDBAccessor : Signer -> option CertDBAccessor -> E -> E;
  (* endpoints *)
  NewRegisterHandler : Globals_ Signer UserRegistry CertDBAccessor BCCSP -> E ->
    option Handler * option error;
  NewEnrollHandler : Globals_ Signer UserRegistry CertDBAccessor BCCSP -> E ->
    option Handler * option error;
  NewReenrollHandler : Globals_ Signer UserRegistry CertDBAccessor BCCSP -> E ->
    option Handler * option error;
  NewRevokeHandler : Globals_ Signer UserRegistry CertDBAccessor BCCSP -> E ->
    option Handler * option error;
  NewTCertHandler : Globals_ Signer UserRegistry CertDBAccessor BCCSP -> E ->
    option Handler * option error;
  NewAuthWrapper : string -> option Handler -> option error ->
                   string * option Handler * option error;
  (* network *)
  net_JoinHostPort : string -> string -> string;
  strconv_Itoa : Z -> string;
  tls_LoadX509KeyPair : string -> string -> E -> option Certificate * option error;
  tls_Listen : string -> string -> list Certificate -> E ->
               (option Listener * option error) * E;
  net_Listen : string -> string -> E -> (option Listener * option error) * E;
  http_Serve : Listener -> option (gmap string Handler) -> E -> option error * E;
  listener_Close : Listener -> E -> option error * E
}.

(** Calls that reach the outside world, in the order they are made, with
    what they returned. *)
Inductive Event : Type :=
| EvInitFactories (r : option error)
| EvInitcaNew (req : CertificateRequest) (r : option error)
| EvMkdirAll (dir : string) (perm : Z) (r : option error)
| EvWriteFile (file : string) (data : list byte) (perm : Z) (r : option error)
| EvOpenDB (driver datasource : string) (existed : bool) (r : option error)
| EvLDAPNewClient (r : option error)
| EvGetUser (id : string) (attrs : list string) (found : bool)
| EvInsertUser (rec : spi_UserInfo) (r : option error)
| EvInsertGroup (path parent : string) (r : option error)
| EvNewSigner (r : option error)
| EvSetDBAccessor
| EvListen (secure : bool) (addr : string) (r : option error)
| EvServe (r : option error)
| EvGoServe
| EvClose (r : option error).

Section Embedding.

Context {P : Platform}.

(** ** The server and the process state *)

Record Server : Type := {
  HomeDir : string;
  BlockingStart : bool;
  Config : option ServerConfig;
  db : option DBConn;
  csp : option BCCSP;
  certDBAccessor : option CertDBAccessor;
  registry : option UserRegistry;
  enrollSigner : option Signer;
  mux : option (gmap string Handler);
  listener : option Listener;
  serveError : option error
}.

Definition Globals : Type := Globals_ Signer UserRegistry CertDBAccessor BCCSP.

Record World : Type := {
  srv : Server;               (* the receiver, [*s] *)
  glob : Globals;
  log_Level : Level;          (* cfssl's [log.Level] *)
  logs : list LogEntry;       (* calls of the logger, oldest first *)
  ext : E;
  trace : list Event          (* calls to the outside, oldest first *)
}.

Definition with_srv (f : Server -> Server) (w : World) : World :=
  {| srv := f (srv w); glob := glob w; log_Level := log_Level w;
     logs := logs w; ext := ext w; trace := trace w |}.

Definition with_glob (f : Globals -> Globals) (w : World) : World :=
  {| srv := srv w; glob := f (glob w); log_Level := log_Level w;
     logs := logs w; ext := ext w; trace := trace w |}.

Definition with_log_Level (l : Level) (w : World) : World :=
  {| srv := srv w; glob := glob w; log_Level := l;
     logs := logs w; ext := ext w; trace := trace w |}.

Definition with_log (entry : LogEntry) (w : World) : World :=
  {| srv := srv w; glob := glob w; log_Level := log_Level w;
     logs := logs w ++ [entry]; ext := ext w; trace := trace w |}.

(** The outside world moves to [e] and the call [ev] is recorded. *)
Definition with_call (e : E) (ev : Event) (w : World) : World :=
  {| srv := srv w; glob := glob w; log_Level := log_Level w;
     logs := logs w; ext := e; trace := trace w ++ [ev] |}.

Definition set_HomeDir (v : string) (s : Server) : Server :=
  {| HomeDir := v; BlockingStart := BlockingStart s; Config := Config s;
     db := db s; csp := csp s; certDBAccessor := certDBAccessor s;
     registry := registry s; enrollSigner := enrollSigner s; mux := mux s;
     listener := listener s; serveError := serveError s |}.

Definition set_Config (v : option ServerConfig) (s : Server) : Server :=
  {| HomeDir := HomeDir s; BlockingStart := BlockingStart s; Config := v;
     db := db s; csp := csp s; certDBAccessor := certDBAccessor s;
     registry := registry s; enrollSigner := enrollSigner s; mux := mux s;
     listener := listener s; serveError := serveError s |}.

Definition set_db (v : option DBConn) (s : Server) : Server :=
  {| HomeDir := HomeDir s; BlockingStart := BlockingStart s; Config := Config s;
     db := v; csp := csp s; certDBAccessor := certDBAccessor s;
     registry := registry s; enrollSigner := enrollSigner s; mux := mux s;
     listener := listener s; serveError := serveError s |}.

Definition set_certDBAccessor (v : option CertDBAccessor) (s : Server) : Server :=
  {| HomeDir := HomeDir s; BlockingStart := BlockingStart s; Config := Config s;
     db := db s; csp := csp s; certDBAccessor := v;
     registry := registry s; enrollSigner := enrollSigner s; mux := mux s;
     listener := listener s; serveError := serveError s |}.

Definition set_registry (v : option UserRegistry) (s : Server) : Server :=
  {| HomeDir := HomeDir s; BlockingStart := BlockingStart s; Config := Config s;
     db := db s; csp := csp s; certDBAccessor := certDBAccessor s;
     registry := v; enrollSigner := enrollSigner s; mux := mux s;
     listener := listener s; serveError := serveError s |}.

Definition set_enrollSigner (v : option Signer) (s : Server) : Server :=
  {| HomeDir := HomeDir s; BlockingStart := BlockingStart s; Config := Config s;
     db := db s; csp := csp s; certDBAccessor := certDBAccessor s;
     registry := registry s; enrollSigner := v; mux := mux s;
     listener := listener s; serveError := serveError s |}.

Definition set_mux (v : option (gmap string Handler)) (s : Server) : Server :=
  {| HomeDir := HomeDir s; BlockingStart := BlockingStart s; Config := Config s;
     db := db s; csp := csp s; certDBAccessor := certDBAccessor s;
     registry := registry s; enrollSigner := enrollSigner s; mux := v;
     listener := listener s; serveError := serveError s |}.

Definition set_listener (v : option Listener) (s : Server) : Server :=
  {| HomeDir := HomeDir s; BlockingStart := BlockingStart s; Config := Config s;
     db := db s; csp := csp s; certDBAccessor := certDBAccessor s;
     registry := registry s; enrollSigner := enrollSigner s; mux := mux s;
     listener := v; serveError := serveError s |}.

Definition set_serveError (v : option error) (s : Server) : Server :=
  {| HomeDir := HomeDir s; BlockingStart := BlockingStart s; Config := Config s;
     db := db s; csp := csp s; certDBAccessor := certDBAccessor s;
     registry := registry s; enrollSigner := enrollSigner s; mux := mux s;
     listener := listener s; serveError := v |}.

Definition set_EnrollSigner (v : option Signer) (g : Globals) : Globals :=
  {| EnrollSigner := v; UserRegistry_ := UserRegistry_ g;
     MaxEnrollments := MaxEnrollments g; MyCertDBAccessor := MyCertDBAccessor g;
     CAKeyFile := CAKeyFile g; CACertFile := CACertFile g; MyCSP := MyCSP g |}.

Definition set_UserRegistry (v : option UserRegistry) (g : Globals) : Globals :=
  {| EnrollSigner := EnrollSigner g; UserRegistry_ := v;
     MaxEnrollments := MaxEnrollments g; MyCertDBAccessor := MyCertDBAccessor g;
     CAKeyFile := CAKeyFile g; CACertFile := CACertFile g; MyCSP := MyCSP g |}.

Definition set_MyCertDBAccessor (v : option CertDBAccessor) (g : Globals)
  : Globals :=
  {| EnrollSigner := EnrollSigner g; UserRegistry_ := UserRegistry_ g;
     MaxEnrollments := MaxEnrollments g; MyCertDBAccessor := v;
     CAKeyFile := CAKeyFile g; CACertFile := CACertFile g; MyCSP := MyCSP g |}.

Definition set_CAKeyFile (v : string) (g : Globals) : Globals :=
  {| EnrollSigner := EnrollSigner g; UserRegistry_ := UserRegistry_ g;
     MaxEnrollments := MaxEnrollments g; MyCertDBAccessor := MyCertDBAccessor g;
     CAKeyFile := v; CACertFile := CACertFile g; MyCSP := MyCSP g |}.

Definition set_CACertFile (v : string) (g : Globals) : Globals :=
  {| EnrollSigner := EnrollSigner g; UserRegistry_ := UserRegistry_ g;
     MaxEnrollments := MaxEnrollments g; MyCertDBAccessor := MyCertDBAccessor g;
     CAKeyFile := CAKeyFile g; CACertFile := v; MyCSP := MyCSP g |}.

Definition set_MyCSP (v : option BCCSP) (g : Globals) : Globals :=
  {| EnrollSigner := EnrollSigner g; UserRegistry_ := UserRegistry_ g;
     MaxEnrollments := MaxEnrollments g; MyCertDBAccessor := MyCertDBAccessor g;
     CAKeyFile := CAKeyFile g; CACertFile := CACertFile g; MyCSP := v |}.


(** ** Small steps shared by the functions below *)

Definition logf (lvl : Level) (format : string) (args : list fmtarg)
  : M World unit :=
  modify (with_log {| log_level := lvl; log_format := format; log_args := args |}).

(** [*s.Config]: dereferencing a nil configuration pointer panics. *)
Definition the_Config : M World ServerConfig :=
  fun w =>
    match Config (srv w) with
    | Some c => (Ret c, w)
    | None => (Panic NilDereference, w)
    end.

Definition update_Config (f : ServerConfig -> ServerConfig) : M World unit :=
  let* c := the_Config in
  modify (with_srv (set_Config (Some (f c)))).

(** [s.registry] as the receiver of a method call: calling a method of a
    nil interface value panics. *)
Definition the_registry : M World UserRegistry :=
  fun w =>
    match registry (srv w) with
    | Some r => (Ret r, w)
    | None => (Panic NilDereference, w)
    end.

(** A call that may change the outside world; it is recorded. *)
Definition call {A} (op : E -> A * E) (ev : A -> Event) : M World A :=
  fun w => let (a, e') := op (ext w) in (Ret a, with_call e' (ev a) w).

(** A call that only reads the outside world. *)
Definition ask {A} (op : E -> A) : M World A :=
  fun w => (Ret (op (ext w)), w).

(** ** Key material *)

Definition writeFile (file : string) (buf : list byte) (perm : Z)
  : M World (option error) :=
  let* err := call (os_MkdirAll (filepath_Dir file) perm)
                   (EvMkdirAll (filepath_Dir file) perm) in
  or_return err
    (call (ioutil_WriteFile file buf perm) (EvWriteFile file buf perm)).

(** One round of the loop of [makeFileNamesAbsolute] over a field of the
    configuration, given by its reader and its writer. *)
Definition makeAbsolute (read : ServerConfig -> string)
    (write : string -> ServerConfig -> ServerConfig)
    (k : M World (option error)) : M World (option error) :=
  let* c := the_Config in
  let* s := gets srv in
  let* '(abs, err) := ask (util_MakeFileAbs (read c) (HomeDir s)) in
  or_return err (update_Config (write abs) ;; k).

Definition makeFileNamesAbsolute : M World (option error) :=
  makeAbsolute (fun c => ca_Certfile (cfg_CA c)) set_ca_Certfile
    (makeAbsolute (fun c => ca_Keyfile (cfg_CA c)) set_ca_Keyfile
       (makeAbsolute (fun c => tls_CertFile (cfg_TLS c)) set_tls_CertFile
          (makeAbsolute (fun c => tls_KeyFile (cfg_TLS c)) set_tls_KeyFile
             (ret None)))).

(** The part of [initKeyMaterial] below the test for existing files:
    create the request from the configuration, make the CA, store key and
    certificate. *)
Definition generateKeyMaterial (c : ServerConfig) (keyFile certFile : string)
  : M World (option error) :=
  let ptr := cfg_CSR c in
  let req := {| req_CN := csr_CN ptr;
                req_Names := csr_Names ptr;
                req_Hosts := csr_Hosts ptr;
                req_KeyRequest := Some NewBasicKeyRequest;
                req_CA := csr_CA ptr;
                req_SerialNumber := csr_SerialNumber ptr |} in
  let* '(cert, _, key, err) := call (initca_New req)
                                 (fun r => EvInitcaNew req (snd r)) in
  match err with
  | Some _ =>
      ret (Some (Errorf "Failed to initialize CA [%s]\nRequest was %#v"
                        [FErr err; FVal "req"]))
  | None =>
      let* err := writeFile keyFile key (octal 6 0 0) in
      match err with
      | Some _ => ret (Some (Errorf "Failed to store key: %s" [FErr err]))
      | None =>
          let* err := writeFile certFile cert (octal 6 4 4) in
          match err with
          | Some _ =>
              ret (Some (Errorf "Failed to store certificate: %s" [FErr err]))
          | None =>
              logf LevelInfo "The CA key and certificate files were generated" [] ;;
              logf LevelInfo "Key file location: %s" [FStr keyFile] ;;
              logf LevelInfo "Certificate file location: %s" [FStr certFile] ;;
              ret None
          end
      end
  end.

Definition initKeyMaterial (renew : bool) : M World (option error) :=
  logf LevelDebug "Init with home %s and config %+v"
       [FVal "s.HomeDir"; FVal "s.Config"] ;;
  makeFileNamesAbsolute ;;
  let* c := the_Config in
  let keyFile := ca_Keyfile (cfg_CA c) in
  let certFile := ca_Certfile (cfg_CA c) in
  if negb renew then
    let* keyFileExists := ask (util_FileExists keyFile) in
    let* certFileExists := ask (util_FileExists certFile) in
    if keyFileExists && certFileExists then
      logf LevelInfo "The CA key and certificate files already exist" [] ;;
      logf LevelInfo "Key file location: %s" [FStr keyFile] ;;
      logf LevelInfo "Certificate file location: %s" [FStr certFile] ;;
      ret None
    else generateKeyMaterial c keyFile certFile
  else generateKeyMaterial c keyFile certFile.

(** ** Configuration defaults *)

Definition RegisterBootstrapUser_attributes : list (string * string) :=
  [ ("hf.Registrar.Roles", "client,user,peer,validator,auditor");
    ("hf.Registrar.DelegateRoles", "client,user,validator,auditor");
    ("hf.Revoker", "true") ].

(** [if s.Config == nil { s.Config = new(ServerConfig) }] *)
Definition ensure_Config (s : Server) : Server :=
  match Config s with
  | None => set_Config (Some zero_ServerConfig) s
  | Some _ => s
  end.

Definition initConfig : M World (option error) :=
  let* s := gets srv in
  let* err :=
    (if decide (HomeDir s = "") then
       let* '(dir, err) := ask os_Getwd in
       modify (with_srv (set_HomeDir dir)) ;;
       ret err
     else ret None) in
  match err with
  | Some _ =>
      ret (Some (Errorf "Failed to initialize server's home directory: %s"
                        [FErr err]))
  | None =>
      modify (with_srv ensure_Config) ;;
      let* cfg := the_Config in
      (if decide (cfg_Address cfg = "") then
         update_Config (set_cfg_Address DefaultServerAddr)
       else ret tt) ;;
      (if (cfg_Port cfg =? 0)%Z then
         update_Config (set_cfg_Port DefaultServerPort)
       else ret tt) ;;
      (if decide (ca_Certfile (cfg_CA cfg) = "") then
         update_Config (set_ca_Certfile "ca-cert.pem")
       else ret tt) ;;
      (if decide (ca_Keyfile (cfg_CA cfg) = "") then
         update_Config (set_ca_Keyfile "ca-key.pem")
       else ret tt) ;;
      (if decide (csr_CN (cfg_CSR cfg) = "") then
         update_Config (set_csr_CN "fabric-ca-server")
       else ret tt) ;;
      (if cfg_Debug cfg then modify (with_log_Level LevelDebug) else ret tt) ;;
      let* cfg := the_Config in
      let* err := call (factory_InitFactories (cfg_CSP cfg)) EvInitFactories in
      match err with
      | Some _ =>
          panic (PanicError (Errorf "Could not initialize BCCSP Factories [%s]"
                                    [FErr err]))
      | None => ret None
      end
  end.

Definition RegisterBootstrapUser (user pass affiliation : string)
  : M World (option error) :=
  if bool_decide (user = "") || bool_decide (pass = "") then
    ret (Some (ErrorsNew "empty user and/or pass not allowed"))
  else
    let* err := initConfig in
    match err with
    | Some _ =>
        ret (Some (Errorf "Failed to register bootstrap user '%s': %s"
                          [FStr user; FErr err]))
    | None =>
        let id := {| id_ID := user;
                     id_Pass := pass;
                     id_Type := "user";
                     id_Affiliation := affiliation;
                     id_MaxEnrollments := 0;
                     id_Attributes := RegisterBootstrapUser_attributes |} in
        update_Config (fun c =>
          set_reg_Identities (reg_Identities (cfg_Registry c) ++ [id]) c) ;;
        logf LevelDebug "Registered bootstrap identity: %+v" [FVal "id"] ;;
        ret None
    end.

(** ** The enrollment quota *)

Definition getMaxEnrollments (requestedMax : Z) : M World (Z * option error) :=
  let* c := the_Config in
  let configuredMax := reg_MaxEnrollments (cfg_Registry c) in
  if (requestedMax <? 0)%Z then ret (configuredMax, None)
  else if (configuredMax =? 0)%Z then ret (requestedMax, None)
  else if (requestedMax =? 0)%Z && negb (configuredMax =? 0)%Z then
    ret (0%Z, Some (Errorf "Infinite enrollments is not permitted; max is %d"
                           [FInt configuredMax]))
  else if (requestedMax >? configuredMax)%Z then
    ret (0%Z, Some (Errorf "Max enrollments of %d is not permitted; max is %d"
                           [FInt requestedMax; FInt configuredMax]))
  else ret (requestedMax, None).

(** ** Loading the registry *)

Definition convertAttrs (inAttrs : list (string * string)) : list api_Attribute :=
  fold_left
    (fun (outAttrs : list api_Attribute) '(name, value) =>
       (outAttrs ++ [ {| attr_Name := name; attr_Value := value |} ])%list)
    inAttrs [].

Definition addIdentity (id : ServerConfigIdentity) (errIfFound : bool)
  : M World (option error) :=
  let* r := the_registry in
  let* '(user, _) := call (registry_GetUser r (id_ID id) [])
                       (fun res => EvGetUser (id_ID id) [] (bool_decide (is_Some (fst res)))) in
  match user with
  | Some _ =>
      if errIfFound then
        ret (Some (Errorf "Identity '%s' is already registered" [FStr (id_ID id)]))
      else
        logf LevelDebug "Loaded identity: %+v" [FVal "id"] ;;
        ret None
  | None =>
      let* '(maxEnrollments, err) := getMaxEnrollments (id_MaxEnrollments id) in
      or_return err
        (let rec := {| ui_Name := id_ID id;
                       ui_Pass := id_Pass id;
                       ui_Type := id_Type id;
                       ui_Group := id_Affiliation id;
                       ui_Attributes := convertAttrs (id_Attributes id);
                       ui_MaxEnrollments := maxEnrollments |} in
         let* r := the_registry in
         let* err := call (registry_InsertUser r rec) (EvInsertUser rec) in
         match err with
         | Some _ =>
             ret (Some (Errorf "Failed to insert user '%s': %s"
                               [FStr (id_ID id); FErr err]))
         | None =>
             logf LevelDebug "Registered identity: %+v" [FVal "id"] ;;
             ret None
         end)
  end.

Definition loadUsersTable : M World (option error) :=
  logf LevelDebug "Loading users table" [] ;;
  let* c := the_Config in
  range_until_error
    (fun id =>
       logf LevelDebug "Loading identity '%s'" [FStr (id_ID id)] ;;
       addIdentity id false)
    (reg_Identities (cfg_Registry c))
    (logf LevelDebug "Successfully loaded users table" [] ;;
     ret None).

Definition addAffiliation (path parentPath : string) : M World (option error) :=
  logf LevelDebug "Adding affiliation %s" [FStr path] ;;
  let* r := the_registry in
  call (registry_InsertGroup r path parentPath) (EvInsertGroup path parentPath).

(** The [case string] branch of the loader's type switch, followed by the
    function's final [return nil]. *)
Definition loadAffiliation_string (val parentPath : string)
  : M World (option error) :=
  let path := affiliationPath val parentPath in
  let* err := addAffiliation path parentPath in
  or_return err (ret None).

(** The recursive load.  An element of a [[]string] is passed on as a
    string, so the recursive call on it runs the [case string] branch. *)
Fixpoint loadAffiliationsTableR (val : Node) (parentPath : string) {struct val}
  : M World (option error) :=
  match val with
  | NNil => ret None
  | NString name => loadAffiliation_string name parentPath
  | NStrings l =>
      range_until_error
        (fun ele => loadAffiliation_string ele parentPath) l (ret None)
  | NList l =>
      range_until_error
        (fun ele => loadAffiliationsTableR ele parentPath) l (ret None)
  | NMap entries =>
      range_until_error
        (fun '(name, ele) =>
           let path := affiliationPath name parentPath in
           let* err := addAffiliation path parentPath in
           or_return err (loadAffiliationsTableR ele path))
        entries (ret None)
  | NOther v =>
      panic (TypeAssertion (dynamic_type v) "map[string]interface {}")
  end.

Definition loadAffiliationsTable : M World (option error) :=
  logf LevelDebug "Loading affiliations table" [] ;;
  let* c := the_Config in
  let* err := loadAffiliationsTableR (cfg_Affiliations c) "" in
  (match err with
   | None => logf LevelDebug "Successfully loaded affiliations table" []
   | Some _ => ret tt
   end) ;;
  ret err.

(** ** The database and the user registry *)

Definition initUserRegistry : M World (option error) :=
  logf LevelDebug "Initializing user registry" [] ;;
  let* c := the_Config in
  let ldapCfg := cfg_LDAP c in
  if ldap_Enabled ldapCfg then
    let* '(r, err) := call (ldap_NewClient ldapCfg)
                        (fun res => EvLDAPNewClient (snd res)) in
    modify (with_srv (set_registry r)) ;;
    modify (with_glob (set_UserRegistry r)) ;;
    logf LevelDebug "Initialized LDAP user registry; err=%s" [FErr err] ;;
    ret err
  else
    let* s := gets srv in
    let dbAccessor := NewDBAccessor (db s) in
    modify (with_srv (set_registry (Some dbAccessor))) ;;
    modify (with_glob (set_UserRegistry (Some dbAccessor))) ;;
    logf LevelDebug "Initialized DB user registry" [] ;;
    ret None.

(** The [switch db.Type] of [initDB]: the constructor of the selected
    driver is called; no case matches ([None]) for any other type. *)
Definition openDB (d : ServerConfigDB)
  : M World (option (option DBConn * bool * option error)) :=
  let recorded (driver : string) (res : option DBConn * bool * option error) :=
    EvOpenDB driver (db_Datasource d) (snd (fst res)) (snd res) in
  if decide (db_Type d = "sqlite3") then
    let* res := call (dbutil_NewUserRegistrySQLLite3 (db_Datasource d))
                     (recorded "sqlite3") in
    ret (Some res)
  else if decide (db_Type d = "postgres") then
    let* res := call (dbutil_NewUserRegistryPostgres (db_Datasource d) (db_TLS d))
                     (recorded "postgres") in
    ret (Some res)
  else if decide (db_Type d = "mysql") then
    let* res := call (dbutil_NewUserRegistryMySQL (db_Datasource d) (db_TLS d))
                     (recorded "mysql") in
    ret (Some res)
  else ret None.

(** The part of [initDB] below the [switch]: the database is open and
    [exists_] tells whether it existed before. *)
Definition initDB_opened (exists_ : bool) : M World (option error) :=
  let* s := gets srv in
  let accessor := Some (NewCertDBAccessor (db s)) in
  modify (with_srv (set_certDBAccessor accessor)) ;;
  modify (with_glob (set_MyCertDBAccessor accessor)) ;;
  let* err := initUserRegistry in
  or_return err
    (let* err :=
       (if negb exists_ then
          let* err := loadUsersTable in
          or_return err loadAffiliationsTable
        else ret None) in
     or_return err
       (let* c := the_Config in
        logf LevelInfo "Initialized %s data base at %s"
             [FStr (db_Type (cfg_DB c)); FStr (db_Datasource (cfg_DB c))] ;;
        ret None)).

Definition initDB : M World (option error) :=
  let* c := the_Config in
  logf LevelDebug "Initializing '%s' data base at '%s'"
       [FStr (db_Type (cfg_DB c)); FStr (db_Datasource (cfg_DB c))] ;;
  (if decide (db_Type (cfg_DB c) = "") then update_Config (set_db_Type "sqlite3")
   else ret tt) ;;
  let* err :=
    (if decide (db_Datasource (cfg_DB c) = "") then
       let* s := gets srv in
       let* '(ds, err) := ask (util_MakeFileAbs "fabric-ca-server.db" (HomeDir s)) in
       match err with
       | Some _ => ret err
       | None => update_Config (set_db_Datasource ds) ;; ret None
       end
     else ret None) in
  or_return err
    (let* c := the_Config in
     let* opened := openDB (cfg_DB c) in
     match opened with
     | None =>
         ret (Some (Errorf
           "Invalid db.type in config file: '%s'; must be 'sqlite3', 'postgres', or 'mysql'"
           [FStr (db_Type (cfg_DB c))]))
     | Some (conn, exists_, err) =>
         modify (with_srv (set_db conn)) ;;
         or_return err (initDB_opened exists_)
     end).

(** ** The enrollment signer *)

Definition initEnrollmentSigner : M World (option error) :=
  let* c := the_Config in
  let policy :=
    match cfg_Signing c with
    | Some p => p
    | None => {| sign_Profiles := []; sign_Default := Some config_DefaultConfig |}
    end in
  let* '(policy, err) :=
    (if decide (cfg_Remote c = "") then ret (policy, None)
     else
       let '(policy', err) := signing_OverrideRemotes (cfg_Remote c) policy in
       (* the policy of the configuration is updated in place *)
       (match cfg_Signing c with
        | Some _ => update_Config (set_cfg_Signing (Some policy'))
        | None => ret tt
        end) ;;
       ret (policy', err)) in
  match err with
  | Some _ =>
      ret (Some (Errorf "Failed initializing enrollment signer: %s" [FErr err]))
  | None =>
      let root := [("cert-file", ca_Certfile (cfg_CA c));
                   ("key-file", ca_Keyfile (cfg_CA c))] in
      let forceRemote := negb (bool_decide (cfg_Remote c = "")) in
      let* '(sgn, err) := call (universal_NewSigner root forceRemote policy)
                            (fun res => EvNewSigner (snd res)) in
      modify (with_srv (set_enrollSigner sgn)) ;;
      modify (with_glob (set_EnrollSigner sgn)) ;;
      or_return err
        (match sgn with
         | None => panic NilDereference
         | Some sg =>
             let* s := gets srv in
             call (fun e => (tt, signer_SetDBAccessor sg (certDBAccessor s) e))
                  (fun _ => EvSetDBAccessor) ;;
             ret None
         end)
  end.

(** ** Endpoints *)

(** A handler constructor, [func() (http.Handler, error)]: it takes no
    argument and can read the package-level variables and the outside. *)
Definition constructor : Type := Globals -> E -> option Handler * option error.

Definition construct (getHandler : constructor)
  : M World (option Handler * option error) :=
  fun w => (Ret (getHandler (glob w) (ext w)), w).

(** [s.mux.Handle(pattern, handler)], with the panics that net/http
    documents.  The multiplexer is the map of its explicit registrations. *)
Definition mux_Handle (pattern : string) (handler : option Handler)
  : M World unit :=
  let* s := gets srv in
  match mux s with
  | None => panic NilDereference
  | Some m =>
      if decide (pattern = "") then
        panic (PanicString ("http: invalid pattern " +:+ pattern))
      else
        match handler with
        | None => panic (PanicString "http: nil handler")
        | Some h =>
            match m !! pattern with
            | Some _ =>
                panic (PanicString ("http: multiple registrations for " +:+ pattern))
            | None => modify (with_srv (set_mux (Some (<[pattern := h]> m))))
            end
        end
  end.

Definition registerHandler (path : string) (getHandler : constructor)
  : M World (option error) :=
  let* '(handler, err) := construct getHandler in
  match err with
  | Some _ =>
      ret (Some (Errorf "Endpoint '%s' is disabled: %s" [FStr path; FErr err]))
  | None =>
      let '(path, handler, err) := NewAuthWrapper path handler err in
      match err with
      | Some _ =>
          ret (Some (Errorf "Endpoint '%s' has been disabled: %s"
                            [FStr path; FErr err]))
      | None => mux_Handle path handler ;; ret None
      end
  end.

Definition registerHandlerLog (path : string) (getHandler : constructor)
  : M World unit :=
  let* err := registerHandler path getHandler in
  match err with
  | Some _ =>
      logf LevelWarning "Endpoint '%s' is disabled: %s" [FStr path; FErr err]
  | None => logf LevelInfo "Endpoint '%s' is enabled" [FStr path]
  end.

Definition registerHandlers : M World unit :=
  modify (with_srv (set_mux (Some ∅))) ;;
  registerHandlerLog "register" NewRegisterHandler ;;
  registerHandlerLog "enroll" NewEnrollHandler ;;
  registerHandlerLog "reenroll" NewReenrollHandler ;;
  registerHandlerLog "revoke" NewRevokeHandler ;;
  registerHandlerLog "tcert" NewTCertHandler.

(** ** Listening and serving *)

Definition serve : M World (option error) :=
  let* s := gets srv in
  match listener s with
  | None => panic NilDereference
  | Some l =>
      let* err := call (http_Serve l (mux s)) EvServe in
      modify (with_srv (set_serveError err)) ;;
      logf LevelError "Server has stopped serving: %s" [FErr err] ;;
      let* s := gets srv in
      (match listener s with
       | Some l =>
           call (listener_Close l) EvClose ;;
           modify (with_srv (set_listener None))
       | None => ret tt
       end) ;;
      let* s := gets srv in
      ret (serveError s)
  end.

(** The end of [listenAndServe], once a listener is open.  The statement
    [go s.serve()] starts a goroutine; the sequential model records that
    it was started and does not run it. *)
Definition serveOn (l : option Listener) : M World (option error) :=
  modify (with_srv (set_listener l)) ;;
  let* s := gets srv in
  if BlockingStart s then serve
  else
    modify (fun w => with_call (ext w) EvGoServe w) ;;
    ret None.

Definition listenAndServe : M World (option error) :=
  let* c := the_Config in
  (if decide (cfg_Address c = "") then
     update_Config (set_cfg_Address DefaultServerAddr)
   else ret tt) ;;
  (if (cfg_Port c =? 0)%Z then update_Config (set_cfg_Port DefaultServerPort)
   else ret tt) ;;
  let* c := the_Config in
  let addr := net_JoinHostPort (cfg_Address c) (strconv_Itoa (cfg_Port c)) in
  if tls_Enabled (cfg_TLS c) then
    logf LevelDebug "TLS is enabled" [] ;;
    let* '(cer, err) := ask (tls_LoadX509KeyPair (tls_CertFile (cfg_TLS c))
                                                 (tls_KeyFile (cfg_TLS c))) in
    or_return err
      (let* '(l, err) := call (tls_Listen "tcp" addr (option_list cer))
                           (fun res => EvListen true addr (snd res)) in
       match err with
       | Some _ => ret (Some (Errorf "TLS listen failed: %s" [FErr err]))
       | None =>
           logf LevelInfo "Listening at https://%s" [FStr addr] ;;
           serveOn l
       end)
  else
    let* '(l, err) := call (net_Listen "tcp" addr)
                        (fun res => EvListen false addr (snd res)) in
    match err with
    | Some _ => ret (Some (Errorf "TCP listen failed: %s" [FErr err]))
    | None =>
        logf LevelInfo "Listening at http://%s" [FStr addr] ;;
        serveOn l
    end.

(** ** The life cycle *)

Definition Init (renew : bool) : M World (option error) :=
  let* err := initConfig in
  or_return err
    (let* default := ask factory_GetDefault in
     modify (with_glob (set_MyCSP default)) ;;
     let* err := initKeyMaterial renew in
     or_return err
       (let* err := initDB in
        or_return err
          (let* err := initEnrollmentSigner in
           or_return err (ret None)))).

Definition Start : M World (option error) :=
  modify (with_srv (set_serveError None)) ;;
  let* s := gets srv in
  match listener s with
  | Some _ => ret (Some (ErrorsNew "server is already started"))
  | None =>
      let* err := Init false in
      or_return err
        (let* c := the_Config in
         modify (with_glob (set_CAKeyFile (ca_Keyfile (cfg_CA c)))) ;;
         modify (with_glob (set_CACertFile (ca_Certfile (cfg_CA c)))) ;;
         registerHandlers ;;
         listenAndServe)
  end.

Definition Stop : M World (option error) :=
  let* s := gets srv in
  match listener s with
  | None => ret (Some (ErrorsNew "server is not currently started"))
  | Some l =>
      let* err := call (listener_Close l) EvClose in
      modify (with_srv (set_listener None)) ;;
      ret err
  end.

(** ** The [init] command (package server)

    [initMain] makes a private key and a self-signed certificate and
    stores them in the home directory of fabric-ca. *)

(** cfssl's [cli.Config], of which [initMain] touches one field. *)
Record cli_Config : Type := { IsCA : bool }.

(** cfssl's [cli.PopFirstArgument]. *)
Definition PopFirstArgument (args : list string)
  : string * list string * option error :=
  match args with
  | [] => ("", [], Some (ErrorsNew
             "not enough arguments are supplied --- please refer to the usage"))
  | a :: rest => (a, rest, None)
  end.

(** cfssl's [log.Fatal]: log at the fatal level, then [os.Exit(1)]. *)
Definition log_Fatal {A} (msg : string) : M World A :=
  logf LevelFatal msg [] ;; exit 1%Z.

Definition initMain (args : list string) (c : cli_Config) : M World (option error) :=
  let '(csrFile, _, err) := PopFirstArgument args in
  or_return err
    (let* '(csrFileBytes, err) := ask (cli_ReadStdin csrFile) in
     or_return err
       (let req := {| req_CN := ""; req_Names := []; req_Hosts := [];
                      req_KeyRequest := Some NewBasicKeyRequest;
                      req_CA := None; req_SerialNumber := "" |} in
        let '(req, err) := json_Unmarshal csrFileBytes req in
        or_return err
          (let* bccsp := ask factory_GetDefault in
           let c := {| IsCA := true |} in
           let* '(cert, _, key, err) := call (initca_New req)
                                          (fun r => EvInitcaNew req (snd r)) in
           or_return err
             (let* FCAHome := ask (fun e =>
                 filepath_Dir (util_GetDefaultConfigFile "fabric-ca-server" e)) in
              or_return err
                (let certPath := path_Join FCAHome "server-cert.pem" in
                 let* certerr := call (ioutil_WriteFile certPath cert (octal 7 5 5))
                                      (EvWriteFile certPath cert (octal 7 5 5)) in
                 (match certerr with
                  | Some _ => log_Fatal
                      "Error writing server-cert.pem to fabric-ca home directory"
                  | None => ret tt
                  end) ;;
                 let keyPath := path_Join FCAHome "server-key.pem" in
                 let* keyerr := call (ioutil_WriteFile keyPath key (octal 7 5 5))
                                     (EvWriteFile keyPath key (octal 7 5 5)) in
                 (match keyerr with
                  | Some _ => log_Fatal
                      "Error writing server-key.pem to fabric-ca home directory"
                  | None => ret tt
                  end) ;;
                 ret None))))).

End Embedding.

(** ** An in-memory platform

    A small platform on which the embedding runs by computation: files,
    databases and the registry are finite maps.  It serves to evaluate
    the functions above on concrete inputs; the theorems below hold for
    every platform.  The registry follows section 4.1 of the
    specification: [InsertUser] refuses a duplicate id and [InsertGroup]
    of an affiliation that is present succeeds without a change. *)

Record MemFile : Type := { file_data : list byte; file_mode : Z }.

Record Mem : Type := {
  mem_cwd : string;
  mem_files : gmap string MemFile;
  mem_dbs : gset string;                       (* datasources that exist *)
  mem_users : gmap string spi_UserInfo;
  mem_groups : gmap string string;             (* affiliation to parent *)
  mem_keys : Z                                 (* key pairs made so far *)
}.

Definition mem_set_files (f : gmap string MemFile) (e : Mem) : Mem :=
  {| mem_cwd := mem_cwd e; mem_files := f; mem_dbs := mem_dbs e;
     mem_users := mem_users e; mem_groups := mem_groups e; mem_keys := mem_keys e |}.

Definition mem_set_dbs (d : gset string) (e : Mem) : Mem :=
  {| mem_cwd := mem_cwd e; mem_files := mem_files e; mem_dbs := d;
     mem_users := mem_users e; mem_groups := mem_groups e; mem_keys := mem_keys e |}.

Definition mem_set_users (u : gmap string spi_UserInfo) (e : Mem) : Mem :=
  {| mem_cwd := mem_cwd e; mem_files := mem_files e; mem_dbs := mem_dbs e;
     mem_users := u; mem_groups := mem_groups e; mem_keys := mem_keys e |}.

Definition mem_set_groups (g : gmap string string) (e : Mem) : Mem :=
  {| mem_cwd := mem_cwd e; mem_files := mem_files e; mem_dbs := mem_dbs e;
     mem_users := mem_users e; mem_groups := g; mem_keys := mem_keys e |}.

Definition mem_set_keys (n : Z) (e : Mem) : Mem :=
  {| mem_cwd := mem_cwd e; mem_files := mem_files e; mem_dbs := mem_dbs e;
     mem_users := mem_users e; mem_groups := mem_groups e; mem_keys := n |}.

(** The part of a path before its last slash, if it has one. *)
Fixpoint before_last_slash (s : string) : option string :=
  match s with
  | EmptyString => None
  | String c rest =>
      match before_last_slash rest with
      | Some d => Some (String c d)
      | None => if Ascii.eqb c "/" then Some EmptyString else None
      end
  end.

Definition mem_Dir (file : string) : string :=
  match before_last_slash file with
  | Some EmptyString => "/"
  | Some d => d
  | None => "."
  end.

Definition mem_IsAbs (file : string) : bool :=
  match file with
  | String c _ => Ascii.eqb c "/"
  | EmptyString => false
  end.

(** A relative home directory is taken from the root. *)
Definition mem_MakeFileAbs (file dir : string) (e : Mem) : string * option error :=
  if bool_decide (file = "") then ("", None)
  else if mem_IsAbs file then (file, None)
  else if mem_IsAbs dir then (dir +:+ "/" +:+ file, None)
  else ("/" +:+ dir +:+ "/" +:+ file, None).

Definition mem_WriteFile (file : string) (data : list byte) (perm : Z) (e : Mem)
  : option error * Mem :=
  let mode := match mem_files e !! file with
              | Some old => file_mode old      (* an existing file keeps its mode *)
              | None => perm
              end in
  (None, mem_set_files
           (<[file := {| file_data := data; file_mode := mode |}]> (mem_files e)) e).

Definition mem_ReadStdin (file : string) (e : Mem) : list byte * option error :=
  match mem_files e !! file with
  | Some f => (file_data f, None)
  | None => ([], Some (ExtError "os" "no such file or directory"))
  end.

Definition mem_InitFactories (opts : option FactoryOpts) (e : Mem)
  : option error * Mem :=
  match opts with
  | None => (None, e)
  | Some o =>
      if bool_decide (ProviderName o = "SW") then (None, e)
      else (Some (ExtError "bccsp/factory" "Could not find default BCCSP"), e)
  end.

Definition mem_initca_New (req : CertificateRequest) (e : Mem)
  : (list byte * list byte * list byte * option error) * Mem :=
  match req_KeyRequest req with
  | None => (([], [], [], Some (ExtError "initca" "invalid key request")), e)
  | Some _ =>
      (([x43; x45; x52; x54], [x43; x53; x52], [x4b; x45; x59], None),
       mem_set_keys (mem_keys e + 1)%Z e)
  end.

Definition mem_openDB (datasource : string) (e : Mem)
  : (option string * bool * option error) * Mem :=
  ((Some datasource, bool_decide (datasource ∈ mem_dbs e), None),
   mem_set_dbs ({[datasource]} ∪ mem_dbs e) e).

Inductive MemRegistry : Type := MemDBRegistry | MemLDAPRegistry.

Definition mem_ldap_NewClient (cfg : ldap_Config) (e : Mem)
  : (option MemRegistry * option error) * Mem :=
  if bool_decide (ldap_URL cfg = "") then
    ((None, Some (ExtError "ldap" "LDAP configuration requires a 'URL'")), e)
  else ((Some MemLDAPRegistry, None), e).

(** Modelled from the spec: the registry implementations (the database
    accessor and the LDAP client) are in other files of the repository.
    Section 4.1: [GetUser] returns the record or reports that there is
    none. *)
Definition mem_GetUser (r : MemRegistry) (id : string) (attrs : list string)
    (e : Mem) : (option spi_UserInfo * option error) * Mem :=
  match mem_users e !! id with
  | Some u => ((Some u, None), e)
  | None => ((None, Some (ExtError "sql" "no rows in result set")), e)
  end.

(** Modelled from the spec: section 4.1, [InsertUser] refuses an id that
    is present. *)
Definition mem_InsertUser (r : MemRegistry) (rec : spi_UserInfo) (e : Mem)
  : option error * Mem :=
  match mem_users e !! ui_Name rec with
  | Some _ => (Some (ExtError "sql" "UNIQUE constraint failed: users.id"), e)
  | None => (None, mem_set_users (<[ui_Name rec := rec]> (mem_users e)) e)
  end.

(** Modelled from the spec: section 4.1, [InsertGroup] is idempotent; an
    affiliation that is present is left as it is and the call succeeds. *)
Definition mem_InsertGroup (r : MemRegistry) (path parent : string) (e : Mem)
  : option error * Mem :=
  match mem_groups e !! path with
  | Some _ => (None, e)
  | None => (None, mem_set_groups (<[path := parent]> (mem_groups e)) e)
  end.

Definition mem_OverrideRemotes (remote : string) (p : config_Signing)
  : config_Signing * option error :=
  let redirect (q : SigningProfile) :=
    {| prof_Usage := prof_Usage q; prof_ExpiryString := prof_ExpiryString q;
       prof_RemoteServer := remote |} in
  ({| sign_Profiles := map (fun '(n, q) => (n, redirect q)) (sign_Profiles p);
      sign_Default := option_map redirect (sign_Default p) |}, None).

Definition mem_NewSigner (root : list (string * string)) (forceRemote : bool)
    (policy : config_Signing) (e : Mem) : (option unit * option error) * Mem :=
  if forallb (fun '(_, file) => bool_decide (is_Some (mem_files e !! file))) root
  then ((Some tt, None), e)
  else ((None, Some (ExtError "universal" "open: no such file or directory")), e).

(** The transaction certificate endpoint needs the CA key file; the other
    endpoints are always available. *)
Definition mem_NewTCertHandler (g : Globals_ unit MemRegistry (option string) unit)
    (e : Mem) : option string * option error :=
  if bool_decide (is_Some (mem_files e !! CAKeyFile g)) then (Some "tcert", None)
  else (None, Some (ExtError "tcert" "failed to load the CA key"))%string.

Definition mem_LoadX509KeyPair (certFile keyFile : string) (e : Mem)
  : option unit * option error :=
  if bool_decide (is_Some (mem_files e !! certFile)) &&
     bool_decide (is_Some (mem_files e !! keyFile))
  then (Some tt, None)
  else (None, Some (ExtError "tls" "open: no such file or directory")).

#[export] Instance MemPlatform : Platform := {|
  E := Mem;
  BCCSP := unit;
  Signer := unit;
  Handler := string;
  Listener := string;
  Certificate := unit;
  DBConn := string;
  CertDBAccessor := option string;
  spi_User := spi_UserInfo;
  UserRegistry := MemRegistry;
  DefaultServerAddr := "0.0.0.0";
  DefaultServerPort := 7054;
  os_Getwd := fun e => (mem_cwd e, None);
  util_MakeFileAbs := mem_MakeFileAbs;
  util_FileExists := fun file e => bool_decide (is_Some (mem_files e !! file));
  util_GetDefaultConfigFile :=
    fun cmd e => "/etc/hyperledger/fabric-ca/" +:+ cmd +:+ "-config.yaml";
  filepath_Dir := mem_Dir;
  path_Join := fun dir file => dir +:+ "/" +:+ file;
  os_MkdirAll := fun dir perm e => (None, e);
  ioutil_WriteFile := mem_WriteFile;
  cli_ReadStdin := mem_ReadStdin;
  json_Unmarshal := fun data req => (req, None);
  factory_InitFactories := mem_InitFactories;
  factory_GetDefault := fun e => Some tt;
  initca_New := mem_initca_New;
  dbutil_NewUserRegistrySQLLite3 := mem_openDB;
  dbutil_NewUserRegistryPostgres := fun ds tls => mem_openDB ds;
  dbutil_NewUserRegistryMySQL := fun ds tls => mem_openDB ds;
  NewCertDBAccessor := fun conn => conn;
  NewDBAccessor := fun conn => MemDBRegistry;
  ldap_NewClient := mem_ldap_NewClient;
  registry_GetUser := mem_GetUser;
  registry_InsertUser := mem_InsertUser;
  registry_InsertGroup := mem_InsertGroup;
  config_DefaultConfig :=
    {| prof_Usage := ["signing"; "key encipherment"; "server auth"; "client auth"];
       prof_ExpiryString := "8760h"; prof_RemoteServer := "" |};
  signing_OverrideRemotes := mem_OverrideRemotes;
  universal_NewSigner := mem_NewSigner;
  signer_SetDBAccessor := fun sg accessor e => e;
  NewRegisterHandler := fun g e => (Some "register", None);
  NewEnrollHandler := fun g e => (Some "enroll", None);
  NewReenrollHandler := fun g e => (Some "reenroll", None);
  NewRevokeHandler := fun g e => (Some "revoke", None);
  NewTCertHandler := mem_NewTCertHandler;
  NewAuthWrapper := fun path h err => ("/api/v1/cfssl/" +:+ path, h, err);
  net_JoinHostPort := fun host port => host +:+ ":" +:+ port;
  strconv_Itoa := pretty;
  tls_LoadX509KeyPair := mem_LoadX509KeyPair;
  tls_Listen := fun network addr certs e => ((Some addr, None), e);
  net_Listen := fun network addr e => ((Some addr, None), e);
  http_Serve := fun l m e => (Some (ExtError "http" "use of closed network connection"), e);
  listener_Close := fun l e => (None, e)
|}.

(** *** Sample worlds *)

Definition mem_empty : Mem := {|
  mem_cwd := "/home/ca";
  mem_files := ∅;
  mem_dbs := ∅;
  mem_users := ∅;
  mem_groups := ∅;
  mem_keys := 0
|}.

Definition new_Server (home : string) (c : option ServerConfig) : Server := {|
  HomeDir := home;
  BlockingStart := false;
  Config := c;
  db := None;
  csp := None;
  certDBAccessor := None;
  registry := None;
  enrollSigner := None;
  mux := None;
  listener := None;
  serveError := None
|}.

Definition no_Globals : Globals := {|
  EnrollSigner := None;
  UserRegistry_ := None;
  MaxEnrollments := 0;
  MyCertDBAccessor := None;
  CAKeyFile := "";
  CACertFile := "";
  MyCSP := None
|}.

Definition new_World (s : Server) (e : Mem) : World := {|
  srv := s;
  glob := no_Globals;
  log_Level := LevelInfo;
  logs := [];
  ext := e;
  trace := []
|}.

(** ** Vocabulary of the statements *)

Section Vocabulary.

Context {P : Platform}.

(** [c] moves every world to one related to it by [R], however it ends. *)
Definition preserves (R : World -> World -> Prop) {A} (c : M World A) : Prop :=
  forall w, R w (snd (c w)).

(** From a world that satisfies [I], [c] returns (no panic, no exit) in a
    world that satisfies [I]. *)
Definition returns_under (I : World -> Prop) {A} (c : M World A) : Prop :=
  forall w, I w -> (exists a, fst (c w) = Ret a) /\ I (snd (c w)).

(** From a world that satisfies [I], the outcome of [c] satisfies [O]. *)
Definition ends_with (I : World -> Prop) {A} (O : outcome A -> Prop)
    (c : M World A) : Prop :=
  forall w, I w -> O (fst (c w)).

(** The calls made between [w] and [w'] all satisfy [Q]. *)
Definition emitted (Q : Event -> Prop) (w w' : World) : Prop :=
  exists evs, trace w' = (trace w ++ evs)%list /\ Forall Q evs.

Definition is_registry_call (ev : Event) : bool :=
  match ev with
  | EvGetUser _ _ _ | EvInsertUser _ _ | EvInsertGroup _ _ _ => true
  | _ => false
  end.

(** Calls that open or initialise the database, the registry or the
    certificate store, or that use the registry. *)
Definition is_storage_call (ev : Event) : bool :=
  match ev with
  | EvOpenDB _ _ _ _ | EvLDAPNewClient _ | EvSetDBAccessor | EvNewSigner _ => true
  | _ => is_registry_call ev
  end.

Definition is_OpenDB (ev : Event) : bool :=
  match ev with
  | EvOpenDB _ _ _ _ => true
  | _ => false
  end.

(** Every call in [evs] is an insertion of an affiliation whose parent
    path is in [known] or was inserted, with success, earlier in [evs]. *)
Fixpoint parents_known (known : list string) (evs : list Event) : Prop :=
  match evs with
  | [] => True
  | EvInsertGroup path parent r :: rest =>
      In parent known /\
      parents_known (match r with None => path :: known | Some _ => known end) rest
  | _ :: _ => False
  end.

(** The calls made between [w] and [w'] are insertions of affiliations,
    each under [parentPath] or under a path inserted before it. *)
Definition inserted_under (parentPath : string) (w w' : World) : Prop :=
  exists evs, trace w' = (trace w ++ evs)%list /\ parents_known [parentPath] evs.

(** The insertions that the specification of the affiliation loader
    prescribes for a configuration node met under [parentPath], in order,
    each as the pair of the path to insert and its parent path: for each
    name encountered the full path is computed from the accumulated
    parent path, the affiliation is inserted, and its children follow
    with the new path as their parent; the nodes of a sequence are
    consumed in order under the same parent path.  This is the reference
    that the trace of [loadAffiliationsTableR] is compared with. *)
Fixpoint spec_insertions (val : Node) (parentPath : string)
  : list (string * string) :=
  match val with
  | NNil => []
  | NString name => [(affiliationPath name parentPath, parentPath)]
  | NStrings l => map (fun name => (affiliationPath name parentPath, parentPath)) l
  | NList l => flat_map (fun ele => spec_insertions ele parentPath) l
  | NMap entries =>
      flat_map
        (fun entry =>
           (affiliationPath (fst entry) parentPath, parentPath)
           :: spec_insertions (snd entry) (affiliationPath (fst entry) parentPath))
        entries
  | NOther _ => []
  end.

(** The call [InsertGroup(path, parentPath)] that returned [r]. *)
Definition insertion (r : option error) (planned : string * string) : Event :=
  EvInsertGroup (fst planned) (snd planned) r.

(** The calls [evs] of a run that ended with [o] are those of [plan], in
    its order: all of them, each returning nil, when the run returned nil;
    up to the insertion that failed, when the run returned its error; the
    successful insertions of a first part of the plan, when the run
    panicked. *)
Definition follows_plan (plan : list (string * string))
    (o : outcome (option error)) (evs : list Event) : Prop :=
  match o with
  | Ret None => evs = map (insertion None) plan
  | Ret (Some e) =>
      exists before failed rest,
        plan = (before ++ failed :: rest)%list /\
        evs = (map (insertion None) before ++ [insertion (Some e) failed])%list
  | Panic _ =>
      exists before rest,
        plan = (before ++ rest)%list /\ evs = map (insertion None) before
  | Exit _ => False
  end.

(** The calls of [c], from any world, follow [plan]. *)
Definition runs_plan (plan : list (string * string))
    (c : M World (option error)) : Prop :=
  forall w, exists evs,
    trace (snd (c w)) = (trace w ++ evs)%list /\
    follows_plan plan (fst (c w)) evs.

(** [affiliation_at val parentPath name children under]: in the tree
    [val], met under [parentPath], the name [name] occurs with the
    sub-tree [children] below it (none for a name given as a string), at
    a place that the tree puts under the path [under]: the parent path
    [parentPath] itself for a name at the root level of [val], and the
    path of the enclosing name for a name inside a mapping entry. *)
Inductive affiliation_at
  : Node -> string -> string -> Node -> string -> Prop :=
| at_string name parentPath :
    affiliation_at (NString name) parentPath name NNil parentPath
| at_strings l name parentPath :
    In name l ->
    affiliation_at (NStrings l) parentPath name NNil parentPath
| at_key entries name children parentPath :
    In (name, children) entries ->
    affiliation_at (NMap entries) parentPath name children parentPath
| at_element l ele parentPath name children under :
    In ele l ->
    affiliation_at ele parentPath name children under ->
    affiliation_at (NList l) parentPath name children under
| at_entry entries key ele parentPath name children under :
    In (key, ele) entries ->
    affiliation_at ele (affiliationPath key parentPath) name children under ->
    affiliation_at (NMap entries) parentPath name children under.

Definition has_registry (w : World) : Prop := is_Some (registry (srv w)).

Definition has_config (w : World) : Prop := is_Some (Config (srv w)).

(** Nothing was called and the outside world did not move. *)
Definition same_outside (w w' : World) : Prop :=
  ext w' = ext w /\ trace w' = trace w.

(** [makeFileNamesAbsolute] read as a function of the configuration: for
    a home directory and a state of the outside world, the configuration
    that it leaves and the error that it returns. *)
Definition absolute_field (home : string) (e : E)
    (read : ServerConfig -> string)
    (write : string -> ServerConfig -> ServerConfig)
    (k : ServerConfig -> ServerConfig * option error)
    (c : ServerConfig) : ServerConfig * option error :=
  match util_MakeFileAbs (read c) home e with
  | (abs, None) => k (write abs c)
  | (_, Some err) => (c, Some err)
  end.

Definition absolute_names (home : string) (e : E)
  : ServerConfig -> ServerConfig * option error :=
  absolute_field home e (fun c => ca_Certfile (cfg_CA c)) set_ca_Certfile
    (absolute_field home e (fun c => ca_Keyfile (cfg_CA c)) set_ca_Keyfile
       (absolute_field home e (fun c => tls_CertFile (cfg_TLS c)) set_tls_CertFile
          (absolute_field home e (fun c => tls_KeyFile (cfg_TLS c)) set_tls_KeyFile
             (fun c => (c, None))))).

(** What the second run of the key-material bootstrap needs of the file
    system: the absolute name of a file does not depend on the state of
    the outside world and is its own absolute name; a file that was
    written exists; making a directory or writing a file removes no
    file. *)
Record file_system_laws : Prop := {
  abs_independent : forall file dir e e',
    util_MakeFileAbs file dir e = util_MakeFileAbs file dir e';
  abs_idempotent : forall file dir e abs,
    util_MakeFileAbs file dir e = (abs, None) ->
    util_MakeFileAbs abs dir e = (abs, None);
  write_exists : forall file data perm e e',
    ioutil_WriteFile file data perm e = (None, e') ->
    util_FileExists file e' = true;
  write_keeps : forall file other data perm e r e',
    ioutil_WriteFile other data perm e = (r, e') ->
    util_FileExists file e = true -> util_FileExists file e' = true;
  mkdir_keeps : forall file dir perm e r e',
    os_MkdirAll dir perm e = (r, e') ->
    util_FileExists file e = true -> util_FileExists file e' = true
}.

(** The calls that [generateKeyMaterial] may make: the CA is made, the
    key goes to [keyFile] with mode 0600 and the certificate to
    [certFile] with mode 0644, each after its directory was made. *)
Definition key_material_call (keyFile certFile : string) (ev : Event) : Prop :=
  match ev with
  | EvInitcaNew _ _ => True
  | EvMkdirAll _ _ _ => True
  | EvWriteFile file _ perm _ =>
      (file = keyFile /\ perm = octal 6 0 0) \/
      (file = certFile /\ perm = octal 6 4 4)
  | _ => False
  end.

(** The calls of [initDB]: none, or the opening of the database followed
    by calls that open nothing more and that use the registry only if
    the database did not exist and was opened without error. *)
Definition after_open (existed : bool) (err : option error) (ev : Event) : Prop :=
  is_OpenDB ev = false /\
  (is_registry_call ev = true -> existed = false /\ err = None).

Definition gated_calls (evs : list Event) : Prop :=
  evs = [] \/
  exists driver datasource existed err rest,
    evs = EvOpenDB driver datasource existed err :: rest /\
    Forall (after_open existed err) rest.

Definition gated (w w' : World) : Prop :=
  exists evs, trace w' = (trace w ++ evs)%list /\ gated_calls evs.

(** A configuration tree built from the five shapes that the loader's
    type switch provides for. *)
Fixpoint well_shaped (n : Node) : bool :=
  match n with
  | NNil | NString _ | NStrings _ => true
  | NList l => forallb well_shaped l
  | NMap entries => forallb (fun entry => well_shaped (snd entry)) entries
  | NOther _ => false
  end.

(** The database types that [initDB] accepts; the empty type stands for
    ["sqlite3"]. *)
Definition supported_db_type (t : string) : Prop :=
  t = "" \/ t = "sqlite3" \/ t = "postgres" \/ t = "mysql".

(** What startup leaves alone when it stops before the database is
    opened: the database handle, the certificate store accessor and the
    registry of the server and of the package, the database type of a
    configuration that is present, and the outside world as far as
    storage calls go. *)
Record before_storage (w w' : World) : Prop := {
  kept_db_Type : forall c, Config (srv w) = Some c ->
    exists c', Config (srv w') = Some c' /\
               db_Type (cfg_DB c') = db_Type (cfg_DB c);
  kept_db : db (srv w') = db (srv w);
  kept_certDBAccessor : certDBAccessor (srv w') = certDBAccessor (srv w);
  kept_registry : registry (srv w') = registry (srv w);
  kept_UserRegistry : UserRegistry_ (glob w') = UserRegistry_ (glob w);
  kept_MyCertDBAccessor : MyCertDBAccessor (glob w') = MyCertDBAccessor (glob w);
  kept_calls : emitted (fun ev => is_storage_call ev = false) w w'
}.

(** Startup did not complete: an error was returned, or the BCCSP
    factories could not be initialised and [initConfig] panicked. *)
Definition startup_aborted (o : outcome (option error)) : Prop :=
  (exists e, o = Ret (Some e)) \/
  (exists e, o = Panic (PanicError
     (Errorf "Could not initialize BCCSP Factories [%s]" [FErr (Some e)]))).

End Vocabulary.

(** ** Sample inputs on the in-memory platform *)

Definition sample_identity : ServerConfigIdentity := {|
  id_ID := "alice";
  id_Pass := "alicepw";
  id_Type := "user";
  id_Affiliation := "org1.dept1";
  id_MaxEnrollments := -1;
  id_Attributes := [("hf.Revoker", "true")]
|}.

Definition sample_tree : Node :=
  NMap [ ("org1", NList [NString "dept1";
                         NMap [("dept2", NStrings ["a"; "b"])]]);
         ("org2", NNil) ].

Definition sample_config (max : Z) (dbtype : string) (provider : option FactoryOpts)
  : ServerConfig := {|
  cfg_Port := 0;
  cfg_Address := "";
  cfg_Debug := false;
  cfg_TLS := {| tls_Enabled := false; tls_CertFile := ""; tls_KeyFile := "" |};
  cfg_CSP := provider;
  cfg_CA := {| ca_Keyfile := "/home/ca/ca-key.pem";
               ca_Certfile := "/home/ca/ca-cert.pem" |};
  cfg_Signing := None;
  cfg_CSR := {| csr_CN := "fabric-ca-server"; csr_Names := []; csr_Hosts := [];
                csr_CA := None; csr_SerialNumber := "" |};
  cfg_Registry := {| reg_MaxEnrollments := max;
                     reg_Identities := [sample_identity] |};
  cfg_Affiliations := sample_tree;
  cfg_LDAP := {| ldap_Enabled := false; ldap_URL := "" |};
  cfg_DB := {| db_Type := dbtype; db_Datasource := "";
               db_TLS := {| ctls_Enabled := false; ctls_CertFiles := [] |} |};
  cfg_Remote := ""
|}.

(** A fresh server, nothing on disk. *)
Definition sample_world (max : Z) (dbtype : string) : World :=
  new_World (new_Server "/home/ca" (Some (sample_config max dbtype None))) mem_empty.

(** The same server once its registry is the database accessor. *)
Definition sample_world_registry (max : Z) : World :=
  with_srv (set_registry (Some MemDBRegistry)) (sample_world max "sqlite3").

(** A disk that holds a CA key and a CA certificate. *)
Definition mem_with_ca : Mem :=
  mem_set_files
    (<["/home/ca/ca-key.pem" := {| file_data := [x4b]; file_mode := octal 6 0 0 |}]>
       (<["/home/ca/ca-cert.pem" := {| file_data := [x43]; file_mode := octal 6 4 4 |}]>
          ∅))
    mem_empty.

Definition sample_world_with_ca : World :=
  new_World (new_Server "/home/ca" (Some (sample_config 0 "sqlite3" None)))
            mem_with_ca.

(** A registry that already knows alice. *)
Definition sample_world_alice : World :=
  new_World
    (set_registry (Some MemDBRegistry)
       (new_Server "/home/ca" (Some (sample_config 3 "sqlite3" None))))
    (mem_set_users
       {[ "alice" := {| ui_Name := "alice"; ui_Pass := "first"; ui_Type := "user";
                        ui_Group := "org1"; ui_Attributes := [];
                        ui_MaxEnrollments := 1 |} ]}
       mem_empty).

(** A configuration whose BCCSP provider does not exist. *)
Definition sample_world_bad_csp (dbtype : string) : World :=
  new_World
    (new_Server "/home/ca"
       (Some (sample_config 0 dbtype (Some {| ProviderName := "PKCS11" |}))))
    mem_empty.

(** A disk that holds the request file of the [init] command. *)
Definition sample_world_csr : World :=
  new_World (new_Server "/home/ca" None)
    (mem_set_files
       (<["csr.json" := {| file_data := [x7b; x7d]; file_mode := octal 6 4 4 |}]> ∅)
       mem_empty).

(** A database that exists already. *)
Definition sample_world_existing_db : World :=
  new_World (new_Server "/home/ca" (Some (sample_config 3 "sqlite3" None)))
            (mem_set_dbs {[ "/home/ca/fabric-ca-server.db" ]} mem_empty).

(** * Properties *)

(** ** The monad *)

Section MonadFacts.

Context {P : Platform}.

Lemma bind_Ret {A B} (c : M World A) (k : A -> M World B) w a w' :
  c w = (Ret a, w') -> bind c k w = k a w'.
Proof. unfold bind. now intros ->. Qed.

Lemma bind_Panic {A B} (c : M World A) (k : A -> M World B) w v w' :
  c w = (Panic v, w') -> bind c k w = (Panic v, w').
Proof. unfold bind. now intros ->. Qed.

(** The world in which [bind c k] ends is the one in which [c] ends, or
    one that [k] reaches from there. *)
Lemma bind_snd {A B} (c : M World A) (k : A -> M World B) w :
  snd (bind c k w) = snd (c w) \/
  exists a, fst (c w) = Ret a /\ snd (bind c k w) = snd (k a (snd (c w))).
Proof.
  unfold bind. destruct (c w) as [[a|v|n] w']; simpl; eauto.
Qed.

Lemma bind_ret {A B} (a : A) (k : A -> M World B) w : bind (ret a) k w = k a w.
Proof. reflexivity. Qed.

Lemma bind_gets {A B} (f : World -> A) (k : A -> M World B) w :
  bind (gets f) k w = k (f w) w.
Proof. reflexivity. Qed.

Lemma bind_ask {A B} (op : E -> A) (k : A -> M World B) w :
  bind (ask op) k w = k (op (ext w)) w.
Proof. reflexivity. Qed.

Lemma bind_modify {B} (f : World -> World) (k : unit -> M World B) w :
  bind (modify f) k w = k tt (f w).
Proof. reflexivity. Qed.

Lemma bind_logf {B} lvl format args (k : unit -> M World B) w :
  bind (logf lvl format args) k w
  = k tt (with_log {| log_level := lvl; log_format := format;
                      log_args := args |} w).
Proof. reflexivity. Qed.

Lemma update_Config_Some f w c :
  Config (srv w) = Some c ->
  update_Config f w = (Ret tt, with_srv (set_Config (Some (f c))) w).
Proof. intros HC. unfold update_Config, bind, the_Config. now rewrite HC. Qed.

Lemma the_Config_Some w c :
  Config (srv w) = Some c -> the_Config w = (Ret c, w).
Proof. unfold the_Config. now intros ->. Qed.

Lemma the_Config_None w :
  Config (srv w) = None -> the_Config w = (Panic NilDereference, w).
Proof. unfold the_Config. now intros ->. Qed.

Lemma the_registry_Some w r :
  registry (srv w) = Some r -> the_registry w = (Ret r, w).
Proof. unfold the_registry. now intros ->. Qed.

End MonadFacts.


(** ** Rules for [preserves] and [returns_under] *)

Section Rules.

Context {P : Platform}.

Section Preserves.

Variable R : World -> World -> Prop.
Hypothesis R_refl : forall w, R w w.
Hypothesis R_trans : forall w1 w2 w3, R w1 w2 -> R w2 w3 -> R w1 w3.

Lemma preserves_ret {A} (a : A) : preserves R (ret a).
Proof. intros w. apply R_refl. Qed.

Lemma preserves_panic {A} v : preserves R (@panic World A v).
Proof. intros w. apply R_refl. Qed.

Lemma preserves_exit {A} n : preserves R (@exit World A n).
Proof. intros w. apply R_refl. Qed.

Lemma preserves_gets {A} (f : World -> A) : preserves R (gets f).
Proof. intros w. apply R_refl. Qed.

Lemma preserves_ask {A} (op : E -> A) : preserves R (ask op).
Proof. intros w. apply R_refl. Qed.

Lemma preserves_construct g : preserves R (construct g).
Proof. intros w. apply R_refl. Qed.

Lemma preserves_the_Config : preserves R the_Config.
Proof. intros w. unfold the_Config. destruct (Config (srv w)); apply R_refl. Qed.

Lemma preserves_the_registry : preserves R the_registry.
Proof. intros w. unfold the_registry. destruct (registry (srv w)); apply R_refl. Qed.

Lemma preserves_bind {A B} (c : M World A) (k : A -> M World B) :
  preserves R c -> (forall a, preserves R (k a)) -> preserves R (bind c k).
Proof.
  intros Hc Hk w. destruct (bind_snd c k w) as [-> | (a & _ & ->)].
  - apply Hc.
  - eapply R_trans; [apply Hc | apply Hk].
Qed.

Lemma preserves_modify (f : World -> World) :
  (forall w, R w (f w)) -> preserves R (modify f).
Proof. intros Hf w. apply Hf. Qed.

Lemma preserves_call {A} (op : E -> A * E) (ev : A -> Event) :
  (forall w a e', R w (with_call e' (ev a) w)) -> preserves R (call op ev).
Proof. intros H w. unfold call. destruct (op (ext w)). apply H. Qed.

Lemma preserves_update_Config (f : ServerConfig -> ServerConfig) :
  (forall w c, Config (srv w) = Some c ->
               R w (with_srv (set_Config (Some (f c))) w)) ->
  preserves R (update_Config f).
Proof.
  intros H w. unfold update_Config, bind, the_Config.
  destruct (Config (srv w)) as [c|] eqn:HC; [|apply R_refl].
  now apply H.
Qed.

Lemma preserves_or_return err (k : M World (option error)) :
  preserves R k -> preserves R (or_return err k).
Proof. intros Hk. destruct err; [apply preserves_ret | exact Hk]. Qed.

Lemma preserves_range {A} (body : A -> M World (option error)) l k :
  (forall x, In x l -> preserves R (body x)) ->
  preserves R k ->
  preserves R (range_until_error body l k).
Proof.
  intros Hbody Hk. induction l as [|x l IH]; [exact Hk|].
  cbn [range_until_error]. apply preserves_bind.
  - apply Hbody. now left.
  - intros err. apply preserves_or_return, IH.
    intros y Hy. apply Hbody. now right.
Qed.

End Preserves.

Section Returns.

Variable I : World -> Prop.

Lemma returns_ret {A} (a : A) : returns_under I (ret a).
Proof. intros w HI. split; [now exists a | exact HI]. Qed.

Lemma returns_gets {A} (f : World -> A) : returns_under I (gets f).
Proof. intros w HI. split; [now exists (f w) | exact HI]. Qed.

Lemma returns_ask {A} (op : E -> A) : returns_under I (ask op).
Proof. intros w HI. split; [now exists (op (ext w)) | exact HI]. Qed.

Lemma returns_bind {A B} (c : M World A) (k : A -> M World B) :
  returns_under I c -> (forall a, returns_under I (k a)) ->
  returns_under I (bind c k).
Proof.
  intros Hc Hk w HI. destruct (Hc w HI) as [[a Ha] HI'].
  unfold bind. destruct (c w) as [o w1]. cbn [fst snd] in *. subst o.
  now apply Hk.
Qed.

Lemma returns_modify (f : World -> World) :
  (forall w, I w -> I (f w)) -> returns_under I (modify f).
Proof. intros Hf w HI. split; [now exists tt | now apply Hf]. Qed.

Lemma returns_call {A} (op : E -> A * E) (ev : A -> Event) :
  (forall w a e', I w -> I (with_call e' (ev a) w)) -> returns_under I (call op ev).
Proof.
  intros H w HI. unfold call. destruct (op (ext w)) as [a e'].
  split; [now exists a | now apply H].
Qed.

(** After a computation that returns under [I], the outcome is that of
    what follows. *)
Lemma outcome_bind {A B} (O : outcome B -> Prop) (c : M World A)
    (k : A -> M World B) :
  returns_under I c ->
  (forall a w1, I w1 -> O (fst (k a w1))) ->
  forall w, I w -> O (fst (bind c k w)).
Proof.
  intros Hc Hk w HI. destruct (Hc w HI) as [[a Ha] HI'].
  unfold bind. destruct (c w) as [o w1]. cbn [fst snd] in *. subst o.
  now apply Hk.
Qed.

Lemma returns_or_return err (k : M World (option error)) :
  returns_under I k -> returns_under I (or_return err k).
Proof. intros Hk. destruct err; [apply returns_ret | exact Hk]. Qed.

Lemma returns_range {A} (body : A -> M World (option error)) l k :
  (forall x, In x l -> returns_under I (body x)) ->
  returns_under I k ->
  returns_under I (range_until_error body l k).
Proof.
  intros Hbody Hk. induction l as [|x l IH]; [exact Hk|].
  cbn [range_until_error]. apply returns_bind.
  - apply Hbody. now left.
  - intros err. apply returns_or_return, IH.
    intros y Hy. apply Hbody. now right.
Qed.

Lemma ends_bind_under {A B} (O : outcome B -> Prop)
    (c : M World A) (k : A -> M World B) :
  returns_under I c ->
  (forall a, ends_with I O (k a)) ->
  ends_with I O (bind c k).
Proof. intros Hc Hk w HI. eapply outcome_bind; eauto. Qed.

End Returns.

Lemma same_outside_refl w : same_outside w w.
Proof. now split. Qed.

Lemma same_outside_trans w1 w2 w3 :
  same_outside w1 w2 -> same_outside w2 w3 -> same_outside w1 w3.
Proof. intros [H1 K1] [H2 K2]. split; congruence. Qed.

Lemma emitted_refl (Q : Event -> Prop) w : emitted Q w w.
Proof. exists []. split; [now rewrite app_nil_r | constructor]. Qed.

Lemma emitted_trans (Q : Event -> Prop) w1 w2 w3 :
  emitted Q w1 w2 -> emitted Q w2 w3 -> emitted Q w1 w3.
Proof.
  intros (evs1 & H1 & K1) (evs2 & H2 & K2).
  exists (evs1 ++ evs2)%list. split; [now rewrite H2, H1, app_assoc|].
  apply Forall_app; now split.
Qed.

Lemma emitted_none (Q : Event -> Prop) w w' :
  trace w' = trace w -> emitted Q w w'.
Proof. intros H. exists []. split; [now rewrite app_nil_r | constructor]. Qed.

Lemma emitted_one (Q : Event -> Prop) w e' ev :
  Q ev -> emitted Q w (with_call e' ev w).
Proof. intros H. exists [ev]. split; [reflexivity | now constructor]. Qed.

Lemma emitted_weaken (Q Q' : Event -> Prop) w w' :
  (forall ev, Q ev -> Q' ev) -> emitted Q w w' -> emitted Q' w w'.
Proof.
  intros H (evs & Htr & HQ). exists evs. split; [exact Htr|].
  eapply Forall_impl; [exact HQ | exact H].
Qed.

Lemma returns_the_Config : returns_under has_config the_Config.
Proof.
  intros w [c Hc]. rewrite (the_Config_Some _ _ Hc).
  split; [now exists c | now exists c].
Qed.

Lemma returns_the_registry : returns_under has_registry the_registry.
Proof.
  intros w [r Hr]. rewrite (the_registry_Some _ _ Hr).
  split; [now exists r | now exists r].
Qed.

Lemma returns_update_Config (f : ServerConfig -> ServerConfig) :
  returns_under has_config (update_Config f).
Proof.
  unfold update_Config. apply returns_bind; [apply returns_the_Config|].
  intros c. apply returns_modify. intros w _. now exists (f c).
Qed.

Lemma ends_ret (I : World -> Prop) {A} (O : outcome A -> Prop) (a : A) :
  O (Ret a) -> ends_with I O (ret a).
Proof. now intros H w _. Qed.

Lemma ends_panic (I : World -> Prop) {A} (O : outcome A -> Prop) v :
  O (Panic v) -> ends_with I O (panic v).
Proof. now intros H w _. Qed.

(** Sequencing, with the invariant moving from [I] to [J]. *)
Lemma ends_bind (I J : World -> Prop) {A B} (O : outcome B -> Prop)
    (c : M World A) (k : A -> M World B) :
  (forall w, I w -> (exists a, fst (c w) = Ret a) /\ J (snd (c w))) ->
  (forall a, ends_with J O (k a)) ->
  ends_with I O (bind c k).
Proof.
  intros Hc Hk w HI. destruct (Hc w HI) as [[a Ha] HJ].
  unfold bind. destruct (c w) as [o w1]. cbn [fst snd] in *. subst o.
  now apply Hk.
Qed.

End Rules.

(** Structural steps of a proof of [preserves R c], given that [R] is
    reflexive and transitive; what a [modify] and a [call] do to the
    world is left to the caller. *)
Ltac preserve Hrefl Htrans :=
  repeat match goal with
  | |- preserves _ (bind _ _) => apply (preserves_bind _ Htrans); [|intros ?]
  | |- preserves _ (ret _) => apply (preserves_ret _ Hrefl)
  | |- preserves _ (panic _) => apply (preserves_panic _ Hrefl)
  | |- preserves _ (exit _) => apply (preserves_exit _ Hrefl)
  | |- preserves _ (gets _) => apply (preserves_gets _ Hrefl)
  | |- preserves _ (ask _) => apply (preserves_ask _ Hrefl)
  | |- preserves _ (construct _) => apply (preserves_construct _ Hrefl)
  | |- preserves _ the_Config => apply (preserves_the_Config _ Hrefl)
  | |- preserves _ the_registry => apply (preserves_the_registry _ Hrefl)
  | |- preserves _ (or_return _ _) => apply (preserves_or_return _ Hrefl)
  | |- preserves _ (range_until_error _ _ _) =>
      apply (preserves_range _ Hrefl Htrans); [intros ? ?|]
  | |- preserves _ (modify _) => apply preserves_modify; intros ?
  | |- preserves _ (call _ _) => apply preserves_call; intros ? ? ?
  | |- preserves _ (logf _ _ _) => unfold logf
  | |- preserves _ (log_Fatal _) => unfold log_Fatal
  | |- preserves _ (update_Config _) =>
      apply (preserves_update_Config _ Hrefl); intros ? ? ?
  | |- preserves _ (match ?x with _ => _ end) => destruct x
  end.

(** The same for [returns_under I c]. *)
Ltac returning :=
  repeat match goal with
  | |- returns_under _ (bind _ _) => apply returns_bind; [|intros ?]
  | |- returns_under _ (ret _) => apply returns_ret
  | |- returns_under _ (gets _) => apply returns_gets
  | |- returns_under _ (ask _) => apply returns_ask
  | |- returns_under _ (or_return _ _) => apply returns_or_return
  | |- returns_under _ (range_until_error _ _ _) =>
      apply returns_range; [intros ? ?|]
  | |- returns_under _ (modify _) => apply returns_modify; intros ? ?
  | |- returns_under _ (call _ _) => apply returns_call; intros ? ? ? ?
  | |- returns_under _ (logf _ _ _) => unfold logf
  | |- returns_under has_config the_Config => apply returns_the_Config
  | |- returns_under has_registry the_registry => apply returns_the_registry
  | |- returns_under has_config (update_Config _) => apply returns_update_Config
  | |- returns_under _ (match ?x with _ => _ end) => destruct x
  end.

(** Induction over configuration trees, with the hypothesis for every
    sub-tree of a sequence or of a mapping. *)
Lemma Node_induction (Q : Node -> Prop) :
  Q NNil ->
  (forall s, Q (NString s)) ->
  (forall l, Q (NStrings l)) ->
  (forall l, (forall n, In n l -> Q n) -> Q (NList l)) ->
  (forall entries, (forall name n, In (name, n) entries -> Q n) -> Q (NMap entries)) ->
  (forall v, Q (NOther v)) ->
  forall n, Q n.
Proof.
  intros HNil HString HStrings HList HMap HOther.
  fix IH 1. intros [ | s | l | l | entries | v ].
  - exact HNil.
  - apply HString.
  - apply HStrings.
  - apply HList. induction l as [|n l IHl]; intros m [].
    + subst m. apply IH.
    + now apply IHl.
  - apply HMap. induction entries as [|[name0 n0] entries IHe]; intros name m [].
    + assert (n0 = m) as <- by congruence. apply IH.
    + now apply (IHe name).
  - apply HOther.
Qed.

(** ** The path of an affiliation *)

Example affiliationPath_root : affiliationPath "org1" "" = "org1".
Proof. reflexivity. Qed.

Example affiliationPath_nested :
  affiliationPath "dept1" "org1" = "org1.dept1".
Proof. reflexivity. Qed.

Lemma append_empty_r (s : string) : s +:+ "" = s.
Proof.
  induction s as [|c s IH]; [reflexivity|].
  change (String c s +:+ "") with (String c (s +:+ "")). now rewrite IH.
Qed.

(** C7. The full path of an affiliation node is [parent.name] under a
    non-empty parent path and is the bare [name] at root level. *)
Theorem affiliationPath_spec (name parent : string) :
  (parent <> "" -> affiliationPath name parent = parent +:+ "." +:+ name) /\
  (parent = "" -> affiliationPath name parent = name).
Proof.
  unfold affiliationPath. split; intros H.
  - destruct (decide (parent = "")) as [E|_]; [contradiction|].
    cbn [Sprintf]. change (String "." (name +:+ "")) with ("." +:+ name +:+ "").
    now rewrite append_empty_r.
  - destruct (decide (parent = "")) as [_|N]; [reflexivity | contradiction].
Qed.

Lemma affiliationPath_spec_witness :
  affiliationPath "dept1" "org1" = "org1.dept1" /\
  affiliationPath "org1" "" = "org1".
Proof.
  split.
  - apply (proj1 (affiliationPath_spec "dept1" "org1")). discriminate.
  - apply (proj2 (affiliationPath_spec "org1" "")). reflexivity.
Defined.

(** ** The enrollment quota *)

Section Quota.

Context {P : Platform}.

Local Open Scope Z_scope.

(** C1. [getMaxEnrollments] follows the policy table: a negative request
    resolves to the configured maximum; under an unlimited configuration
    a request is granted as it is; under a positive maximum, a request
    for unlimited enrollments and a request above the maximum are
    refused, and a request within the maximum is granted. *)
Theorem getMaxEnrollments_policy (w : World) (c : ServerConfig) (requestedMax : Z) :
  Config (srv w) = Some c ->
  let configuredMax := reg_MaxEnrollments (cfg_Registry c) in
  (requestedMax < 0 ->
   getMaxEnrollments requestedMax w = (Ret (configuredMax, None), w)) /\
  (configuredMax = 0 -> requestedMax >= 0 ->
   getMaxEnrollments requestedMax w = (Ret (requestedMax, None), w)) /\
  (configuredMax > 0 -> requestedMax = 0 ->
   exists e, getMaxEnrollments requestedMax w = (Ret (0, Some e), w)) /\
  (configuredMax > 0 -> requestedMax > configuredMax ->
   exists e, getMaxEnrollments requestedMax w = (Ret (0, Some e), w)) /\
  (configuredMax > 0 -> 0 < requestedMax <= configuredMax ->
   getMaxEnrollments requestedMax w = (Ret (requestedMax, None), w)).
Proof.
  intros HC configuredMax.
  unfold getMaxEnrollments.
  rewrite (bind_Ret _ _ _ _ _ (the_Config_Some _ _ HC)).
  fold configuredMax. unfold ret.
  repeat split.
  - intros H. destruct (Z.ltb_spec requestedMax 0); [reflexivity | lia].
  - intros H0 H. destruct (Z.ltb_spec requestedMax 0); [lia|].
    destruct (Z.eqb_spec configuredMax 0); [reflexivity | lia].
  - intros Hc ->. simpl.
    destruct (Z.eqb_spec configuredMax 0); [lia|]. simpl. eauto.
  - intros Hc H. destruct (Z.ltb_spec requestedMax 0); [lia|].
    destruct (Z.eqb_spec configuredMax 0); [lia|].
    destruct (Z.eqb_spec requestedMax 0); [lia|]. simpl.
    destruct (Z.gtb_spec requestedMax configuredMax); [eauto | lia].
  - intros Hc H. destruct (Z.ltb_spec requestedMax 0); [lia|].
    destruct (Z.eqb_spec configuredMax 0); [lia|].
    destruct (Z.eqb_spec requestedMax 0); [lia|]. simpl.
    destruct (Z.gtb_spec requestedMax configuredMax); [lia | reflexivity].
Qed.

End Quota.

Lemma getMaxEnrollments_policy_witness :
  getMaxEnrollments (-1) (sample_world 5 "sqlite3")
    = (Ret (5%Z, None), sample_world 5 "sqlite3") /\
  getMaxEnrollments 4 (sample_world 0 "sqlite3")
    = (Ret (4%Z, None), sample_world 0 "sqlite3") /\
  (exists e, getMaxEnrollments 0 (sample_world 5 "sqlite3")
    = (Ret (0%Z, Some e), sample_world 5 "sqlite3")) /\
  (exists e, getMaxEnrollments 7 (sample_world 5 "sqlite3")
    = (Ret (0%Z, Some e), sample_world 5 "sqlite3")) /\
  getMaxEnrollments 3 (sample_world 5 "sqlite3")
    = (Ret (3%Z, None), sample_world 5 "sqlite3").
Proof.
  destruct (getMaxEnrollments_policy (sample_world 5 "sqlite3") _ (-1)%Z eq_refl)
    as (H1 & _).
  destruct (getMaxEnrollments_policy (sample_world 0 "sqlite3") _ 4%Z eq_refl)
    as (_ & H2 & _).
  destruct (getMaxEnrollments_policy (sample_world 5 "sqlite3") _ 0%Z eq_refl)
    as (_ & _ & H3 & _).
  destruct (getMaxEnrollments_policy (sample_world 5 "sqlite3") _ 7%Z eq_refl)
    as (_ & _ & _ & H4 & _).
  destruct (getMaxEnrollments_policy (sample_world 5 "sqlite3") _ 3%Z eq_refl)
    as (_ & _ & _ & _ & H5).
  split; [apply H1; lia|].
  split; [apply H2; [reflexivity | lia]|].
  split; [apply H3; [simpl; lia | reflexivity]|].
  split; [apply H4; simpl; lia|].
  apply H5; simpl; lia.
Defined.

(** ** Registering an identity that is present *)

Section AddIdentity.

Context {P : Platform}.

(** C4. While the bootstrap identities are loaded ([errIfFound] is
    false), an identity that the registry already returns is left alone:
    [addIdentity] returns [nil], the only call to the registry is the
    lookup, [InsertUser] is not called, and the registry is in the state
    in which the lookup left it. *)
Theorem addIdentity_found_is_noop (id : ServerConfigIdentity) (w : World)
    (r : UserRegistry) (user : spi_User) (err : option error) (e' : E) :
  registry (srv w) = Some r ->
  registry_GetUser r (id_ID id) [] (ext w) = ((Some user, err), e') ->
  exists w',
    addIdentity id false w = (Ret None, w') /\
    trace w' = (trace w ++ [EvGetUser (id_ID id) [] true])%list /\
    (forall rec res, ~ In (EvInsertUser rec res) [EvGetUser (id_ID id) [] true]) /\
    ext w' = e' /\
    srv w' = srv w /\
    glob w' = glob w.
Proof.
  intros Hr Hget. unfold addIdentity.
  rewrite (bind_Ret _ _ _ _ _ (the_registry_Some _ _ Hr)).
  unfold bind at 1. unfold call at 1. rewrite Hget. cbn [fst snd].
  eexists. split; [reflexivity|]. cbn.
  repeat split; try reflexivity.
  intros rec res [H|[]]. discriminate H.
Qed.

End AddIdentity.

Lemma addIdentity_found_is_noop_witness :
  exists w',
    addIdentity sample_identity false sample_world_alice = (Ret None, w') /\
    trace w' = [EvGetUser "alice" [] true] /\
    mem_users (ext w') = mem_users (ext sample_world_alice).
Proof.
  destruct (addIdentity_found_is_noop sample_identity sample_world_alice
              MemDBRegistry
              {| ui_Name := "alice"; ui_Pass := "first"; ui_Type := "user";
                 ui_Group := "org1"; ui_Attributes := [];
                 ui_MaxEnrollments := 1 |}
              None (ext sample_world_alice) eq_refl eq_refl)
    as (w' & Hrun & Htrace & _ & Hext & _).
  exists w'. split; [exact Hrun | split; [exact Htrace | now rewrite Hext]].
Defined.

(** ** Endpoints whose constructor fails *)

Section Endpoints.

Context {P : Platform}.

(** C8. When the handler constructor of an endpoint returns an error,
    [registerHandlerLog] returns normally, the multiplexer is as it was
    (the endpoint is not added), the only effect is one call of the
    logger at the warning level, and whatever follows (the registration
    of the other endpoints, the rest of startup) runs next. *)
Theorem registerHandlerLog_constructor_error (path : string)
    (getHandler : constructor) (w : World) (h : option Handler) (e : error) :
  getHandler (glob w) (ext w) = (h, Some e) ->
  exists entry,
    let w' := with_log entry w in
    registerHandlerLog path getHandler w = (Ret tt, w') /\
    log_level entry = LevelWarning /\
    mux (srv w') = mux (srv w) /\
    ext w' = ext w /\
    trace w' = trace w /\
    forall (B : Type) (k : M World B),
      (registerHandlerLog path getHandler ;; k) w = k w'.
Proof.
  intros Hctor.
  assert (Hrun : registerHandlerLog path getHandler w =
    (Ret tt,
     with_log {| log_level := LevelWarning;
                 log_format := "Endpoint '%s' is disabled: %s";
                 log_args := [FStr path;
                   FErr (Some (Errorf "Endpoint '%s' is disabled: %s"
                                      [FStr path; FErr (Some e)]))] |} w)).
  { unfold registerHandlerLog, registerHandler, bind, construct.
    rewrite Hctor. reflexivity. }
  eexists. cbn zeta. split; [exact Hrun|].
  repeat split; try reflexivity.
  intros B k. now rewrite (bind_Ret _ _ _ _ _ Hrun).
Qed.

End Endpoints.

(** ** Loading the affiliations *)

Section Affiliations.

Context {P : Platform}.

Lemma parents_known_weaken known known' evs :
  (forall x, In x known -> In x known') ->
  parents_known known evs -> parents_known known' evs.
Proof.
  revert known known'.
  induction evs as [|ev evs IH]; intros known known' Hsub; [easy|].
  destruct ev; try easy. cbn [parents_known]. intros [Hin Hrest].
  split; [now apply Hsub|].
  revert Hrest. apply IH. destruct r; [exact Hsub|].
  intros x [->|Hx]; [now left | right; now apply Hsub].
Qed.

Lemma parents_known_app known evs1 evs2 :
  parents_known known evs1 -> parents_known known evs2 ->
  parents_known known (evs1 ++ evs2).
Proof.
  revert known. induction evs1 as [|ev evs1 IH]; intros known H1 H2; [exact H2|].
  destruct ev; try easy. cbn [parents_known app] in *.
  destruct H1 as [Hin Hrest]. split; [exact Hin|].
  apply IH; [exact Hrest|].
  destruct r; [exact H2|].
  revert H2. apply parents_known_weaken. intros x Hx. now right.
Qed.

(** The reading of [parents_known] on a trace cut at any of its calls. *)
Lemma parents_known_split known evs :
  parents_known known evs ->
  forall pre ev post, evs = (pre ++ ev :: post)%list ->
    exists path parent r,
      ev = EvInsertGroup path parent r /\
      (In parent known \/
       exists grandparent, In (EvInsertGroup parent grandparent None) pre).
Proof.
  revert known. induction evs as [|ev0 evs IH]; intros known Hk pre ev post Heq.
  - now destruct pre.
  - destruct ev0; try easy. cbn [parents_known] in Hk. destruct Hk as [Hin Hrest].
    destruct pre as [|ev1 pre]; cbn [app] in Heq.
    + injection Heq as <- _. eauto 6.
    + injection Heq as <- Heq.
      destruct (IH _ Hrest pre ev post Heq) as (p & q & res & -> & Hq).
      exists p, q, res. split; [reflexivity|].
      destruct Hq as [Hq | (gp & Hgp)].
      * destruct r as [e|].
        -- now left.
        -- destruct Hq as [<- | Hq]; [|now left].
           right. exists parent. now left.
      * right. exists gp. now right.
Qed.

Lemma inserted_under_refl pp w : inserted_under pp w w.
Proof. exists []. split; [now rewrite app_nil_r | exact Logic.I]. Qed.

Lemma inserted_under_trans pp w1 w2 w3 :
  inserted_under pp w1 w2 -> inserted_under pp w2 w3 -> inserted_under pp w1 w3.
Proof.
  intros (evs1 & H1 & K1) (evs2 & H2 & K2). exists (evs1 ++ evs2)%list. split.
  - now rewrite H2, H1, app_assoc.
  - now apply parents_known_app.
Qed.

Lemma inserted_under_log pp entry w : inserted_under pp w (with_log entry w).
Proof. exists []. split; [cbn; now rewrite app_nil_r | exact Logic.I]. Qed.

(** One insertion under [parentPath], followed on success by insertions
    under the path that was inserted. *)
Lemma preserves_insert_then name parentPath (children : M World (option error)) :
  preserves (inserted_under (affiliationPath name parentPath)) children ->
  preserves (inserted_under parentPath)
    (let* err := addAffiliation (affiliationPath name parentPath) parentPath in
     or_return err children).
Proof.
  intros Hch w. set (path := affiliationPath name parentPath) in *.
  unfold addAffiliation, bind, logf, modify, the_registry, call. cbn [fst snd srv with_log].
  destruct (registry (srv w)) as [r|]; [|apply inserted_under_log].
  cbn [ext with_log].
  destruct (registry_InsertGroup r path parentPath (ext w)) as [[e|] e'].
  - cbn. exists [EvInsertGroup path parentPath (Some e)].
    split; [reflexivity | cbn; auto].
  - cbn [or_return].
    match goal with |- inserted_under _ _ (snd (children ?w1)) =>
      destruct (Hch w1) as (evs & Htr & Hknown) end.
    exists (EvInsertGroup path parentPath None :: evs). split.
    + rewrite Htr. cbn. now rewrite <- app_assoc.
    + cbn. split; [now left|].
      revert Hknown. apply parents_known_weaken. intros x [->|[]]. now left.
Qed.

Lemma preserves_loadAffiliation_string name parentPath :
  preserves (inserted_under parentPath) (loadAffiliation_string name parentPath).
Proof.
  apply (preserves_insert_then name parentPath (ret None)).
  apply preserves_ret, inserted_under_refl.
Qed.

Lemma preserves_loadAffiliationsTableR val :
  forall parentPath,
    preserves (inserted_under parentPath) (loadAffiliationsTableR val parentPath).
Proof.
  induction val as [ | name | l | l IH | entries IH | v ] using Node_induction;
    intros parentPath; cbn [loadAffiliationsTableR].
  - apply preserves_ret, inserted_under_refl.
  - apply preserves_loadAffiliation_string.
  - apply preserves_range;
      [apply inserted_under_refl | apply inserted_under_trans | |].
    + intros ele _. apply preserves_loadAffiliation_string.
    + apply preserves_ret, inserted_under_refl.
  - apply preserves_range;
      [apply inserted_under_refl | apply inserted_under_trans | |].
    + intros ele Hin. now apply IH.
    + apply preserves_ret, inserted_under_refl.
  - apply preserves_range;
      [apply inserted_under_refl | apply inserted_under_trans | |].
    + intros [name ele] Hin. apply preserves_insert_then. now apply (IH name).
    + apply preserves_ret, inserted_under_refl.
  - apply preserves_panic, inserted_under_refl.
Qed.

Lemma preserves_loadAffiliationsTable :
  preserves (inserted_under "") loadAffiliationsTable.
Proof.
  pose proof (inserted_under_refl "") as Hrefl.
  pose proof (inserted_under_trans "") as Htrans.
  unfold loadAffiliationsTable.
  apply preserves_bind; [assumption | |intros _].
  { apply preserves_modify. intros w. apply inserted_under_log. }
  apply preserves_bind; [assumption | apply preserves_the_Config, Hrefl | intros c].
  apply preserves_bind;
    [assumption | apply preserves_loadAffiliationsTableR | intros err].
  apply preserves_bind; [assumption | | intros _; apply preserves_ret, Hrefl].
  destruct err; [apply preserves_ret, Hrefl|].
  apply preserves_modify. intros w. apply inserted_under_log.
Qed.

Lemma returns_addAffiliation path parentPath :
  returns_under has_registry (addAffiliation path parentPath).
Proof.
  unfold addAffiliation. returning; assumption.
Qed.

Lemma returns_loadAffiliation_string name parentPath :
  returns_under has_registry (loadAffiliation_string name parentPath).
Proof.
  unfold loadAffiliation_string. apply returns_bind.
  - apply returns_addAffiliation.
  - intros err. apply returns_or_return, returns_ret.
Qed.

Lemma returns_loadAffiliationsTableR val :
  well_shaped val = true ->
  forall parentPath,
    returns_under has_registry (loadAffiliationsTableR val parentPath).
Proof.
  induction val as [ | name | l | l IH | entries IH | v ] using Node_induction;
    intros Hshape parentPath; cbn [loadAffiliationsTableR well_shaped] in *.
  - apply returns_ret.
  - apply returns_loadAffiliation_string.
  - apply returns_range; [|apply returns_ret].
    intros ele _. apply returns_loadAffiliation_string.
  - apply returns_range; [|apply returns_ret].
    intros ele Hin. apply IH; [exact Hin|].
    now apply (proj1 (forallb_forall _ _) Hshape).
  - apply returns_range; [|apply returns_ret].
    intros [name ele] Hin. apply returns_bind.
    + apply returns_addAffiliation.
    + intros err. apply returns_or_return. apply (IH name); [exact Hin|].
      now apply (proj1 (forallb_forall _ _) Hshape (name, ele)).
  - discriminate.
Qed.

(** *** The trace of the load against the tree *)

Lemma runs_plan_ret : runs_plan [] (ret None).
Proof. intros w. exists []. split; [cbn; now rewrite app_nil_r | reflexivity]. Qed.

Lemma runs_plan_panic v : runs_plan [] (panic v).
Proof.
  intros w. exists []. split; [cbn; now rewrite app_nil_r|].
  cbn. now exists [], [].
Qed.

(** One insertion: the call is made and its result returned, unless the
    server has no registry, in which case nothing is called. *)
Lemma runs_plan_addAffiliation path parentPath :
  runs_plan [(path, parentPath)] (addAffiliation path parentPath).
Proof.
  intros w. unfold addAffiliation, bind, logf, modify, the_registry, call.
  cbn [fst snd srv with_log].
  destruct (registry (srv w)) as [r|].
  - cbn [ext with_log].
    destruct (registry_InsertGroup r path parentPath (ext w)) as [[e|] e'].
    + exists [EvInsertGroup path parentPath (Some e)]. split; [reflexivity|].
      cbn. now exists [], (path, parentPath), [].
    + exists [EvInsertGroup path parentPath None]. split; reflexivity.
  - exists []. split; [cbn; now rewrite app_nil_r|].
    cbn. now exists [], [(path, parentPath)].
Qed.

(** [c1], and after it [c2] unless [c1] returned an error. *)
Lemma runs_plan_then plan1 plan2 (c1 c2 : M World (option error)) :
  runs_plan plan1 c1 -> runs_plan plan2 c2 ->
  runs_plan (plan1 ++ plan2) (let* err := c1 in or_return err c2).
Proof.
  intros H1 H2 w. destruct (H1 w) as (evs1 & Htr1 & Hf1). unfold bind.
  destruct (c1 w) as [[[e|]|v|n] w1]; cbn [fst snd or_return ret follows_plan] in *.
  - exists evs1. split; [exact Htr1|].
    destruct Hf1 as (before & failed & rest & -> & ->).
    exists before, failed, (rest ++ plan2)%list.
    split; [|reflexivity]. now rewrite <- app_assoc.
  - destruct (H2 w1) as (evs2 & Htr2 & Hf2). subst evs1.
    exists (map (insertion None) plan1 ++ evs2)%list. split.
    { now rewrite Htr2, Htr1, app_assoc. }
    destruct (fst (c2 w1)) as [[e|]|v|n]; cbn [follows_plan] in *.
    + destruct Hf2 as (before & failed & rest & -> & ->).
      exists (plan1 ++ before)%list, failed, rest. split.
      * now rewrite <- app_assoc.
      * now rewrite map_app, <- app_assoc.
    + subst evs2. now rewrite map_app.
    + destruct Hf2 as (before & rest & -> & ->).
      exists (plan1 ++ before)%list, rest. split.
      * now rewrite <- app_assoc.
      * now rewrite map_app.
    + exact Hf2.
  - exists evs1. split; [exact Htr1|].
    destruct Hf1 as (before & rest & -> & ->).
    exists before, (rest ++ plan2)%list. split; [|reflexivity].
    now rewrite <- app_assoc.
  - destruct Hf1.
Qed.

Lemma runs_plan_range {A} (plan : A -> list (string * string))
    (body : A -> M World (option error)) l :
  (forall x, In x l -> runs_plan (plan x) (body x)) ->
  runs_plan (flat_map plan l) (range_until_error body l (ret None)).
Proof.
  induction l as [|x l IH]; intros Hbody; cbn [flat_map range_until_error].
  - apply runs_plan_ret.
  - apply runs_plan_then.
    + apply Hbody. now left.
    + apply IH. intros y Hy. apply Hbody. now right.
Qed.

Lemma runs_plan_loadAffiliation_string name parentPath :
  runs_plan [(affiliationPath name parentPath, parentPath)]
            (loadAffiliation_string name parentPath).
Proof.
  apply (runs_plan_then [(affiliationPath name parentPath, parentPath)] []).
  - apply runs_plan_addAffiliation.
  - apply runs_plan_ret.
Qed.

Lemma flat_map_singleton {A B} (f : A -> B) (l : list A) :
  flat_map (fun x => [f x]) l = map f l.
Proof. induction l as [|x l IH]; cbn; [reflexivity | now rewrite IH]. Qed.

(** The calls of the load are the insertions that the tree prescribes,
    in their order. *)
Lemma runs_plan_loadAffiliationsTableR val :
  forall parentPath,
    runs_plan (spec_insertions val parentPath)
              (loadAffiliationsTableR val parentPath).
Proof.
  induction val as [ | name | l | l IH | entries IH | v ] using Node_induction;
    intros parentPath; cbn [loadAffiliationsTableR spec_insertions].
  - apply runs_plan_ret.
  - apply runs_plan_loadAffiliation_string.
  - rewrite <- flat_map_singleton. apply runs_plan_range.
    intros ele _. apply runs_plan_loadAffiliation_string.
  - apply runs_plan_range. intros ele Hin. now apply IH.
  - apply (runs_plan_range
             (fun entry =>
                (affiliationPath (fst entry) parentPath, parentPath)
                :: spec_insertions (snd entry)
                     (affiliationPath (fst entry) parentPath))).
    intros [name ele] Hin. cbn [fst snd].
    apply (runs_plan_then [(affiliationPath name parentPath, parentPath)]).
    + apply runs_plan_addAffiliation.
    + now apply (IH name).
  - apply runs_plan_panic.
Qed.

(** In what the tree prescribes, the insertion of a name comes directly
    before the insertions of the sub-tree below it, and names the path
    that the tree puts the name under. *)
Lemma spec_insertions_at val parentPath name children under :
  affiliation_at val parentPath name children under ->
  exists before after,
    spec_insertions val parentPath
    = (before
       ++ (affiliationPath name under, under)
          :: spec_insertions children (affiliationPath name under)
       ++ after)%list.
Proof.
  induction 1 as [ name parentPath
                 | l name parentPath Hin
                 | entries name children parentPath Hin
                 | l ele parentPath name children under Hin _ IH
                 | entries key ele parentPath name children under Hin _ IH ];
    cbn [spec_insertions].
  - now exists [], [].
  - destruct (in_split _ _ Hin) as (l1 & l2 & ->).
    exists (map (fun n => (affiliationPath n parentPath, parentPath)) l1),
           (map (fun n => (affiliationPath n parentPath, parentPath)) l2).
    now rewrite map_app.
  - destruct (in_split _ _ Hin) as (l1 & l2 & ->).
    rewrite flat_map_app. cbn [flat_map fst snd]. eexists _, _.
    rewrite <- app_comm_cons. reflexivity.
  - destruct (in_split _ _ Hin) as (l1 & l2 & ->).
    destruct IH as (before & after & IH).
    rewrite flat_map_app. cbn [flat_map]. rewrite IH.
    exists (flat_map (fun ele => spec_insertions ele parentPath) l1 ++ before)%list,
           (after ++ flat_map (fun ele => spec_insertions ele parentPath) l2)%list.
    repeat first [rewrite <- app_assoc | rewrite <- app_comm_cons]. reflexivity.
  - destruct (in_split _ _ Hin) as (l1 & l2 & ->).
    destruct IH as (before & after & IH).
    rewrite flat_map_app. cbn [flat_map fst snd]. rewrite IH.
    match goal with |- context [flat_map ?plan l1] =>
      exists (flat_map plan l1
              ++ (affiliationPath key parentPath, parentPath) :: before)%list,
             (after ++ flat_map plan l2)%list
    end.
    repeat first [rewrite <- app_assoc | rewrite <- app_comm_cons]. reflexivity.
Qed.

(** C2. The calls that [loadAffiliationsTableR] makes for a tree are the
    insertions that the tree prescribes, in the order of the tree: every
    name is inserted under the path that the tree puts it under (the
    starting parent path for a name at root level, the path of the
    enclosing name otherwise) and before anything below it, and the names
    below it are inserted next, under its path.
    - The trace of any run is [spec_insertions] of the tree read in
      order: all of it with every insertion returning nil when the load
      returns nil, up to the insertion that failed when the load returns
      its error, and a first part of it when the load panics.
    - On a tree made of the five shapes, with a registry in place, the
      load returns, so that one of the first two cases applies.
    - When the load returns nil, every name of the tree has its own
      insertion in the trace, under the path the tree puts it under and
      directly followed by the insertions of its sub-tree.
    - [loadAffiliationsTable] runs the load of the configured tree from
      the empty parent path, which is thus the parent path of the
      insertions at root level.
    - Hence, in every run, the parent path of an insertion is the
      starting parent path or a path whose own insertion succeeded
      earlier in the same load. *)
Theorem loadAffiliationsTableR_parent_first :
  (forall (val : Node) (parentPath : string) (w : World),
     exists evs,
       trace (snd (loadAffiliationsTableR val parentPath w)) = (trace w ++ evs)%list /\
       follows_plan (spec_insertions val parentPath)
                    (fst (loadAffiliationsTableR val parentPath w)) evs) /\
  (forall (val : Node) (parentPath : string) (w : World),
     well_shaped val = true ->
     is_Some (registry (srv w)) ->
     exists err, fst (loadAffiliationsTableR val parentPath w) = Ret err) /\
  (forall (val : Node) (parentPath : string) (w : World),
     fst (loadAffiliationsTableR val parentPath w) = Ret None ->
     forall name children under,
       affiliation_at val parentPath name children under ->
       exists before after,
         trace (snd (loadAffiliationsTableR val parentPath w))
         = (trace w
            ++ before
            ++ EvInsertGroup (affiliationPath name under) under None
               :: map (insertion None)
                      (spec_insertions children (affiliationPath name under))
            ++ after)%list) /\
  (forall (w : World) (c : ServerConfig),
     Config (srv w) = Some c ->
     exists evs,
       trace (snd (loadAffiliationsTable w)) = (trace w ++ evs)%list /\
       follows_plan (spec_insertions (cfg_Affiliations c) "")
                    (fst (loadAffiliationsTable w)) evs) /\
  (forall (val : Node) (parentPath : string) (w : World),
     exists evs,
       trace (snd (loadAffiliationsTableR val parentPath w)) = (trace w ++ evs)%list /\
       forall pre ev post, evs = (pre ++ ev :: post)%list ->
         exists path parent r,
           ev = EvInsertGroup path parent r /\
           (parent = parentPath \/
            exists grandparent, In (EvInsertGroup parent grandparent None) pre)) /\
  (forall (w : World),
     exists evs,
       trace (snd (loadAffiliationsTable w)) = (trace w ++ evs)%list /\
       forall pre ev post, evs = (pre ++ ev :: post)%list ->
         exists path parent r,
           ev = EvInsertGroup path parent r /\
           (parent = "" \/
            exists grandparent, In (EvInsertGroup parent grandparent None) pre)).
Proof.
  assert (Hsplit : forall pp w w', inserted_under pp w w' ->
    exists evs, trace w' = (trace w ++ evs)%list /\
      forall pre ev post, evs = (pre ++ ev :: post)%list ->
        exists path parent r,
          ev = EvInsertGroup path parent r /\
          (parent = pp \/
           exists grandparent, In (EvInsertGroup parent grandparent None) pre)).
  { intros pp w w' (evs & Htr & Hk). exists evs. split; [exact Htr|].
    intros pre ev post Heq.
    destruct (parents_known_split _ _ Hk pre ev post Heq) as (p & q & r & -> & Hq).
    exists p, q, r. split; [reflexivity|].
    destruct Hq as [[<-|[]]|Hq]; [now left | now right]. }
  split; [|split; [|split; [|split; [|split]]]].
  - intros val parentPath w. apply runs_plan_loadAffiliationsTableR.
  - intros val parentPath w Hshape Hreg.
    apply (returns_loadAffiliationsTableR val Hshape parentPath w Hreg).
  - intros val parentPath w Hnil name children under Hat.
    destruct (runs_plan_loadAffiliationsTableR val parentPath w)
      as (evs & Htr & Hf).
    rewrite Hnil in Hf. cbn [follows_plan] in Hf. subst evs.
    destruct (spec_insertions_at _ _ _ _ _ Hat) as (before & after & Hplan).
    exists (map (insertion None) before), (map (insertion None) after).
    rewrite Htr, Hplan, map_app. cbn [map]. now rewrite map_app.
  - intros w c HC. unfold loadAffiliationsTable. rewrite bind_logf.
    match goal with |- context [with_log ?entry w] =>
      set (w0 := with_log entry w) end.
    assert (HC0 : Config (srv w0) = Some c) by exact HC.
    rewrite (bind_Ret _ _ _ _ _ (the_Config_Some w0 c HC0)).
    destruct (runs_plan_loadAffiliationsTableR (cfg_Affiliations c) "" w0)
      as (evs & Htr & Hf).
    exists evs. unfold bind.
    destruct (loadAffiliationsTableR (cfg_Affiliations c) "" w0)
      as [[[e|]|v|n] w1]; cbn [fst snd] in *; split; assumption.
  - intros val parentPath w. apply Hsplit, preserves_loadAffiliationsTableR.
  - intros w. apply Hsplit, preserves_loadAffiliationsTable.
Qed.

(** C9. A node whose dynamic type is none of those the type switch names
    reaches the default branch, where the assertion to a mapping panics:
    no error is returned and nothing is inserted.  On a tree made of the
    five shapes only, with a registry in place, the load returns. *)
Theorem loadAffiliationsTableR_total_only_on_shapes :
  (forall (v : other_value) (parentPath : string) (w : World),
     loadAffiliationsTableR (NOther v) parentPath w
     = (Panic (TypeAssertion (dynamic_type v) "map[string]interface {}"), w)) /\
  (forall (val : Node) (parentPath : string) (w : World),
     well_shaped val = true ->
     is_Some (registry (srv w)) ->
     exists err w', loadAffiliationsTableR val parentPath w = (Ret err, w')).
Proof.
  split; [reflexivity|].
  intros val parentPath w Hshape Hreg.
  destruct (returns_loadAffiliationsTableR val Hshape parentPath w Hreg)
    as [[err Herr] _].
  exists err, (snd (loadAffiliationsTableR val parentPath w)).
  rewrite <- Herr. now destruct (loadAffiliationsTableR val parentPath w).
Qed.

End Affiliations.

(** The load of the sample tree: every affiliation follows its parent. *)
Example loadAffiliationsTableR_sample :
  trace (snd (loadAffiliationsTableR sample_tree "" (sample_world_registry 0)))
  = [ EvInsertGroup "org1" "" None;
      EvInsertGroup "org1.dept1" "org1" None;
      EvInsertGroup "org1.dept2" "org1" None;
      EvInsertGroup "org1.dept2.a" "org1.dept2" None;
      EvInsertGroup "org1.dept2.b" "org1.dept2" None;
      EvInsertGroup "org2" "" None ].
Proof. vm_compute. reflexivity. Qed.

(** What the sample tree prescribes: the paths and their parent paths. *)
Example spec_insertions_sample :
  spec_insertions sample_tree ""
  = [ ("org1", ""); ("org1.dept1", "org1"); ("org1.dept2", "org1");
      ("org1.dept2.a", "org1.dept2"); ("org1.dept2.b", "org1.dept2");
      ("org2", "") ].
Proof. vm_compute. reflexivity. Qed.

Lemma loadAffiliationsTableR_parent_first_witness :
  (exists err,
     fst (loadAffiliationsTableR sample_tree "" (sample_world_registry 0))
     = Ret err) /\
  (exists before after,
     trace (snd (loadAffiliationsTableR sample_tree "" (sample_world_registry 0)))
     = (trace (sample_world_registry 0)
        ++ before
        ++ EvInsertGroup (affiliationPath "dept2" "org1") "org1" None
           :: map (insertion None)
                  (spec_insertions (NStrings ["a"; "b"])
                                   (affiliationPath "dept2" "org1"))
        ++ after)%list) /\
  (exists evs,
     trace (snd (loadAffiliationsTable (sample_world_registry 0)))
     = (trace (sample_world_registry 0) ++ evs)%list /\
     follows_plan (spec_insertions sample_tree "")
                  (fst (loadAffiliationsTable (sample_world_registry 0))) evs).
Proof.
  split; [|split].
  - apply (proj1 (proj2 loadAffiliationsTableR_parent_first)).
    + reflexivity.
    + now exists MemDBRegistry.
  - apply (proj1 (proj2 (proj2 loadAffiliationsTableR_parent_first))
             sample_tree "" (sample_world_registry 0)).
    + vm_compute. reflexivity.
    + apply (at_entry _ "org1"
               (NList [NString "dept1"; NMap [("dept2", NStrings ["a"; "b"])]])).
      * now left.
      * apply (at_element _ (NMap [("dept2", NStrings ["a"; "b"])])).
        -- right. now left.
        -- apply at_key. now left.
  - apply (proj1 (proj2 (proj2 (proj2 loadAffiliationsTableR_parent_first)))
             (sample_world_registry 0) (sample_config 0 "sqlite3" None)).
    reflexivity.
Defined.

Lemma loadAffiliationsTableR_total_only_on_shapes_witness :
  loadAffiliationsTableR (NOther (VInt 7)) "" (sample_world_registry 0)
    = (Panic (TypeAssertion "int" "map[string]interface {}"),
       sample_world_registry 0) /\
  exists err w',
    loadAffiliationsTableR sample_tree "" (sample_world_registry 0) = (Ret err, w').
Proof.
  split.
  - apply (proj1 loadAffiliationsTableR_total_only_on_shapes (VInt 7)).
  - apply (proj2 loadAffiliationsTableR_total_only_on_shapes).
    + reflexivity.
    + now exists MemDBRegistry.
Defined.

Lemma registerHandlerLog_constructor_error_witness :
  exists entry,
    registerHandlerLog "tcert" NewTCertHandler (sample_world 0 "sqlite3")
      = (Ret tt, with_log entry (sample_world 0 "sqlite3")) /\
    log_level entry = LevelWarning /\
    mux (srv (with_log entry (sample_world 0 "sqlite3"))) = None.
Proof.
  destruct (registerHandlerLog_constructor_error "tcert" NewTCertHandler
              (sample_world 0 "sqlite3") None
              (ExtError "tcert" "failed to load the CA key")
              ltac:(vm_compute; reflexivity))
    as (entry & Hrun & Hlevel & Hmux & _).
  exists entry. split; [exact Hrun | split; [exact Hlevel | exact Hmux]].
Defined.

(** The four endpoints whose constructors succeed are registered although
    the constructor of the fifth fails. *)
Example registerHandlers_without_tcert :
  option_map (fun m => map fst (map_to_list m))
             (mux (srv (snd (registerHandlers (sample_world 0 "sqlite3")))))
  = Some ["/api/v1/cfssl/enroll"; "/api/v1/cfssl/register";
          "/api/v1/cfssl/reenroll"; "/api/v1/cfssl/revoke"].
Proof. vm_compute. reflexivity. Qed.

(** ** Key material *)

Section KeyMaterial.

Context {P : Platform}.

(** The calls of [generateKeyMaterial]: a file is written either as the
    key file with mode 0600 or as the certificate file with mode 0644. *)
Lemma generateKeyMaterial_calls c keyFile certFile :
  preserves (emitted (key_material_call keyFile certFile))
            (generateKeyMaterial c keyFile certFile).
Proof.
  unfold generateKeyMaterial, writeFile.
  preserve (emitted_refl (key_material_call keyFile certFile))
           (emitted_trans (key_material_call keyFile certFile));
    first [ apply emitted_none; reflexivity
          | apply emitted_one; cbn; auto ].
Qed.

Lemma with_srv_set_Config_same w c :
  Config (srv w) = Some c -> with_srv (set_Config (Some c)) w = w.
Proof.
  destruct w as [s g lvl lg e t]. destruct s. cbn. now intros ->.
Qed.

Lemma makeAbsolute_eq read write k kp w c :
  (forall abs,
     k (with_srv (set_Config (Some (write abs c))) w)
     = (Ret (snd (kp (write abs c))),
        with_srv (set_Config (Some (fst (kp (write abs c))))) w)) ->
  makeAbsolute read write k (with_srv (set_Config (Some c)) w)
  = (Ret (snd (absolute_field (HomeDir (srv w)) (ext w) read write kp c)),
     with_srv (set_Config
       (Some (fst (absolute_field (HomeDir (srv w)) (ext w) read write kp c)))) w).
Proof.
  intros Hk. unfold makeAbsolute, absolute_field.
  erewrite bind_Ret by (apply the_Config_Some; reflexivity).
  rewrite bind_gets, bind_ask. cbn [srv ext with_srv HomeDir set_Config].
  destruct (util_MakeFileAbs (read c) (HomeDir (srv w)) (ext w)) as [abs [err|]];
    cbn [or_return fst snd]; [reflexivity|].
  erewrite bind_Ret by (apply update_Config_Some; reflexivity).
  exact (Hk abs).
Qed.

(** [makeFileNamesAbsolute] computes [absolute_names]. *)
Lemma makeFileNamesAbsolute_eq w c :
  Config (srv w) = Some c ->
  makeFileNamesAbsolute w
  = (Ret (snd (absolute_names (HomeDir (srv w)) (ext w) c)),
     with_srv (set_Config
       (Some (fst (absolute_names (HomeDir (srv w)) (ext w) c)))) w).
Proof.
  intros HC. rewrite <- (with_srv_set_Config_same w c HC) at 1.
  unfold makeFileNamesAbsolute, absolute_names.
  apply makeAbsolute_eq. intros abs1.
  apply makeAbsolute_eq. intros abs2.
  apply makeAbsolute_eq. intros abs3.
  apply makeAbsolute_eq. intros abs4.
  reflexivity.
Qed.

(** One run without renewal when both files exist. *)
Lemma initKeyMaterial_found w c :
  Config (srv w) = Some c ->
  let c' := fst (absolute_names (HomeDir (srv w)) (ext w) c) in
  util_FileExists (ca_Keyfile (cfg_CA c')) (ext w) = true ->
  util_FileExists (ca_Certfile (cfg_CA c')) (ext w) = true ->
  exists w',
    initKeyMaterial false w = (Ret None, w') /\
    same_outside w w' /\
    Config (srv w') = Some c' /\ HomeDir (srv w') = HomeDir (srv w).
Proof.
  intros HC c' Hkey Hcert. unfold initKeyMaterial.
  rewrite bind_logf. set (w0 := with_log _ w).
  rewrite (bind_Ret _ _ _ _ _ (makeFileNamesAbsolute_eq w0 c HC)).
  erewrite bind_Ret by (apply the_Config_Some; reflexivity).
  cbn [negb]. rewrite !bind_ask. cbn [ext with_srv with_log w0 HomeDir srv].
  fold c'. rewrite Hkey, Hcert. cbn [andb]. rewrite !bind_logf.
  eexists. split; [reflexivity|]. repeat split.
Qed.

(** A run that generated the key material has left both files behind. *)
Lemma generateKeyMaterial_success c keyFile certFile w w1 :
  file_system_laws ->
  generateKeyMaterial c keyFile certFile w = (Ret None, w1) ->
  srv w1 = srv w /\
  util_FileExists keyFile (ext w1) = true /\
  util_FileExists certFile (ext w1) = true.
Proof.
  intros laws. unfold generateKeyMaterial, writeFile.
  cbv beta iota delta [bind call or_return logf modify ret].
  destruct (initca_New _ (ext w)) as [[[[cert csr] key] [e|]] e1]; [discriminate|].
  cbn [fst snd ext with_call].
  destruct (os_MkdirAll _ _ e1) as [[e|] e2] eqn:Hm1; [discriminate|].
  cbn [fst snd ext with_call].
  destruct (ioutil_WriteFile keyFile key _ e2) as [[e|] e3] eqn:Hw1; [discriminate|].
  cbn [fst snd ext with_call].
  destruct (os_MkdirAll _ _ e3) as [[e|] e4] eqn:Hm2; [discriminate|].
  cbn [fst snd ext with_call].
  destruct (ioutil_WriteFile certFile cert _ e4) as [[e|] e5] eqn:Hw2; [discriminate|].
  intros [= <-]. cbn. split; [reflexivity|]. split.
  - eapply (write_keeps laws); [exact Hw2|].
    eapply (mkdir_keeps laws); [exact Hm2|].
    eapply (write_exists laws); exact Hw1.
  - eapply (write_exists laws); exact Hw2.
Qed.

Lemma absolute_field_independent home e e' read write k k' c :
  file_system_laws ->
  (forall c1, k c1 = k' c1) ->
  absolute_field home e' read write k c = absolute_field home e read write k' c.
Proof.
  intros laws Hk. unfold absolute_field.
  rewrite (abs_independent laws _ home e' e).
  destruct (util_MakeFileAbs (read c) home e) as [abs [err|]]; [reflexivity|].
  apply Hk.
Qed.

Lemma absolute_names_independent home e e' c :
  file_system_laws -> absolute_names home e' c = absolute_names home e c.
Proof.
  intros laws. unfold absolute_names.
  repeat (apply absolute_field_independent; [exact laws | intros ?]).
  reflexivity.
Qed.

(** Making the names absolute a second time changes nothing. *)
Lemma absolute_names_stable home e e' c :
  file_system_laws ->
  fst (absolute_names home e' (fst (absolute_names home e c)))
  = fst (absolute_names home e c).
Proof.
  intros laws.
  assert (Hsettled : forall c1,
    fst (absolute_names home e c) = c1 ->
    fst (absolute_names home e c1) = c1 ->
    fst (absolute_names home e' (fst (absolute_names home e c)))
    = fst (absolute_names home e c)).
  { intros c1 -> H. now rewrite (absolute_names_independent home e e'). }
  pose proof (abs_idempotent laws) as idem.
  destruct (util_MakeFileAbs (ca_Certfile (cfg_CA c)) home e)
    as [a1 [err1|]] eqn:H1.
  { apply (Hsettled c); unfold absolute_names, absolute_field; now rewrite H1. }
  destruct (util_MakeFileAbs (ca_Keyfile (cfg_CA c)) home e)
    as [a2 [err2|]] eqn:H2.
  { apply (Hsettled (set_ca_Certfile a1 c));
      unfold absolute_names, absolute_field; cbn.
    - now rewrite H1, H2.
    - now rewrite (idem _ _ _ _ H1), H2. }
  destruct (util_MakeFileAbs (tls_CertFile (cfg_TLS c)) home e)
    as [a3 [err3|]] eqn:H3.
  { apply (Hsettled (set_ca_Keyfile a2 (set_ca_Certfile a1 c)));
      unfold absolute_names, absolute_field; cbn.
    - now rewrite H1, H2, H3.
    - now rewrite (idem _ _ _ _ H1), (idem _ _ _ _ H2), H3. }
  destruct (util_MakeFileAbs (tls_KeyFile (cfg_TLS c)) home e)
    as [a4 [err4|]] eqn:H4.
  { apply (Hsettled (set_tls_CertFile a3 (set_ca_Keyfile a2 (set_ca_Certfile a1 c))));
      unfold absolute_names, absolute_field; cbn.
    - now rewrite H1, H2, H3, H4.
    - now rewrite (idem _ _ _ _ H1), (idem _ _ _ _ H2), (idem _ _ _ _ H3), H4. }
  apply (Hsettled (set_tls_KeyFile a4
           (set_tls_CertFile a3 (set_ca_Keyfile a2 (set_ca_Certfile a1 c)))));
    unfold absolute_names, absolute_field; cbn.
  - now rewrite H1, H2, H3, H4.
  - now rewrite (idem _ _ _ _ H1), (idem _ _ _ _ H2), (idem _ _ _ _ H3),
      (idem _ _ _ _ H4).
Qed.

(** After a run without renewal that returned [nil], both files exist
    under the names that the run left in the configuration. *)
Lemma initKeyMaterial_leaves_files w w1 :
  file_system_laws ->
  initKeyMaterial false w = (Ret None, w1) ->
  exists c c',
    Config (srv w) = Some c /\
    c' = fst (absolute_names (HomeDir (srv w)) (ext w) c) /\
    Config (srv w1) = Some c' /\ HomeDir (srv w1) = HomeDir (srv w) /\
    util_FileExists (ca_Keyfile (cfg_CA c')) (ext w1) = true /\
    util_FileExists (ca_Certfile (cfg_CA c')) (ext w1) = true.
Proof.
  intros laws Hrun. destruct (Config (srv w)) as [c|] eqn:HC.
  2: { unfold initKeyMaterial in Hrun. rewrite bind_logf in Hrun.
       erewrite bind_Panic in Hrun; [discriminate|].
       unfold makeFileNamesAbsolute, makeAbsolute.
       apply bind_Panic. now apply the_Config_None. }
  exists c, (fst (absolute_names (HomeDir (srv w)) (ext w) c)).
  split; [reflexivity|]. split; [reflexivity|].
  revert Hrun. unfold initKeyMaterial.
  rewrite bind_logf. set (w0 := with_log _ w).
  rewrite (bind_Ret _ _ _ _ _ (makeFileNamesAbsolute_eq w0 c HC)).
  erewrite bind_Ret by (apply the_Config_Some; reflexivity).
  cbn [negb]. rewrite !bind_ask. cbn [ext with_srv with_log w0 HomeDir srv].
  set (c' := fst (absolute_names (HomeDir (srv w)) (ext w) c)).
  destruct (util_FileExists (ca_Keyfile (cfg_CA c')) (ext w)) eqn:Hkey;
    [destruct (util_FileExists (ca_Certfile (cfg_CA c')) (ext w)) eqn:Hcert|];
    cbn [andb].
  - rewrite !bind_logf. intros [= <-]. cbn. auto.
  - intros Hgen.
    destruct (generateKeyMaterial_success _ _ _ _ _ laws Hgen) as (-> & Hk & Hc).
    cbn. auto.
  - intros Hgen.
    destruct (generateKeyMaterial_success _ _ _ _ _ laws Hgen) as (-> & Hk & Hc).
    cbn. auto.
Qed.

(** C3. Without renewal, when the CA key file and the CA certificate file
    named by the configuration (under the absolute names that
    [makeFileNamesAbsolute] gives them) both exist, [initKeyMaterial]
    returns [nil], calls nothing (no key is generated, no directory
    made, no file written) and leaves the outside world as it was.
    Hence, on a file system that keeps what was written, a second run
    after a run that returned [nil] changes nothing. *)
Theorem initKeyMaterial_idempotent :
  (forall (w : World) (c : ServerConfig),
     Config (srv w) = Some c ->
     let c' := fst (absolute_names (HomeDir (srv w)) (ext w) c) in
     util_FileExists (ca_Keyfile (cfg_CA c')) (ext w) = true ->
     util_FileExists (ca_Certfile (cfg_CA c')) (ext w) = true ->
     exists w',
       initKeyMaterial false w = (Ret None, w') /\
       ext w' = ext w /\ trace w' = trace w) /\
  (file_system_laws ->
   forall (w w1 : World),
     initKeyMaterial false w = (Ret None, w1) ->
     exists w2,
       initKeyMaterial false w1 = (Ret None, w2) /\
       ext w2 = ext w1 /\ trace w2 = trace w1).
Proof.
  split.
  - intros w c HC c' Hkey Hcert.
    destruct (initKeyMaterial_found w c HC Hkey Hcert) as (w' & Hrun & [He Ht] & _).
    now exists w'.
  - intros laws w w1 Hrun.
    destruct (initKeyMaterial_leaves_files w w1 laws Hrun)
      as (c & c' & HC & -> & HC1 & Hhome & Hkey & Hcert).
    destruct (initKeyMaterial_found w1 _ HC1) as (w2 & Hrun2 & [He Ht] & _).
    + rewrite Hhome, absolute_names_stable by exact laws. exact Hkey.
    + rewrite Hhome, absolute_names_stable by exact laws. exact Hcert.
    + now exists w2.
Qed.

End KeyMaterial.

Lemma mem_IsAbs_append dir rest :
  mem_IsAbs dir = true -> mem_IsAbs (dir +:+ rest) = true.
Proof. now destruct dir. Qed.

(** The in-memory platform keeps what was written. *)
Lemma mem_file_system_laws : file_system_laws (P := MemPlatform).
Proof.
  constructor.
  - reflexivity.
  - intros file dir e abs. cbn. unfold mem_MakeFileAbs.
    destruct (bool_decide (file = "")) eqn:Hempty.
    { now intros [= <-]. }
    destruct (mem_IsAbs file) eqn:Hfile.
    { intros [= <-]. now rewrite Hempty, Hfile. }
    destruct (mem_IsAbs dir) eqn:Hdir; intros [= <-].
    + rewrite (mem_IsAbs_append dir _ Hdir).
      destruct dir; [discriminate|]. reflexivity.
    + reflexivity.
  - intros file data perm e e' [= <-]. cbn.
    rewrite lookup_insert_eq. reflexivity.
  - intros file other data perm e r e' [= <- <-]. cbn.
    destruct (decide (other = file)) as [->|Hne].
    + now rewrite lookup_insert_eq.
    + now rewrite lookup_insert_ne.
  - intros file dir perm e r e' [= <- <-]. auto.
Qed.

Lemma initKeyMaterial_idempotent_witness :
  (exists w',
     initKeyMaterial false sample_world_with_ca = (Ret None, w') /\
     ext w' = mem_with_ca /\ trace w' = []) /\
  (exists w2,
     initKeyMaterial false (snd (initKeyMaterial false (sample_world 0 "sqlite3")))
     = (Ret None, w2) /\
     ext w2 = ext (snd (initKeyMaterial false (sample_world 0 "sqlite3"))) /\
     trace w2 = trace (snd (initKeyMaterial false (sample_world 0 "sqlite3")))).
Proof.
  split.
  - apply (proj1 initKeyMaterial_idempotent sample_world_with_ca
             (sample_config 0 "sqlite3" None) eq_refl);
      vm_compute; reflexivity.
  - apply (proj2 initKeyMaterial_idempotent mem_file_system_laws
             (sample_world 0 "sqlite3")).
    assert (Hret : fst (initKeyMaterial false (sample_world 0 "sqlite3")) = Ret None)
      by (vm_compute; reflexivity).
    rewrite <- Hret. now destruct (initKeyMaterial false (sample_world 0 "sqlite3")).
Defined.

(** A fresh start generates the key material; a second run without
    renewal finds it and leaves the disk as the first run left it. *)
Example initKeyMaterial_twice :
  let w1 := snd (initKeyMaterial false (sample_world 0 "sqlite3")) in
  let w2 := snd (initKeyMaterial false w1) in
  fst (initKeyMaterial false w1) = Ret None /\
  mem_files (ext w2) = mem_files (ext w1) /\
  trace w2 = trace w1 /\
  map fst (map_to_list (mem_files (ext w1)))
  = ["/home/ca/ca-key.pem"; "/home/ca/ca-cert.pem"].
Proof. cbv zeta. split; [|split; [|split]]; vm_compute; reflexivity. Qed.

(** ** The mode of the CA key file *)

Section KeyFileMode.

Context {P : Platform}.

(** C5, on the code: every run of the [init] command that returns [nil]
    has made the CA and then written the key to [server-key.pem] with
    mode 0755, which lets group and others read the private key; the
    server's own bootstrap writes it with mode 0600. *)
Theorem initMain_key_mode (args : list string) (c : cli_Config) (w w' : World) :
  initMain args c w = (Ret None, w') ->
  exists req cert key home,
    trace w' = (trace w ++
                [EvInitcaNew req None;
                 EvWriteFile (path_Join home "server-cert.pem") cert (octal 7 5 5) None;
                 EvWriteFile (path_Join home "server-key.pem") key (octal 7 5 5) None])%list /\
    owner_only (octal 7 5 5) = false /\
    owner_only (octal 6 0 0) = true.
Proof.
  unfold initMain. destruct args as [|csrFile rest]; cbn [PopFirstArgument or_return].
  { unfold ret. discriminate. }
  cbv beta iota delta [bind ask call or_return log_Fatal logf modify exit ret].
  destruct (cli_ReadStdin csrFile (ext w)) as [csrFileBytes [e|]]; [discriminate|].
  destruct (json_Unmarshal csrFileBytes _) as [req [e|]]; [discriminate|].
  destruct (initca_New req (ext w)) as [[[[cert csr] key] [e|]] e1]; [discriminate|].
  cbn [fst snd ext with_call].
  destruct (ioutil_WriteFile _ cert _ e1) as [[e|] e2]; [discriminate|].
  cbn [fst snd ext with_call].
  destruct (ioutil_WriteFile _ key _ e2) as [[e|] e3]; [discriminate|].
  intros [= <-]. exists req, cert, key. eexists. cbn.
  split; [now rewrite <- !app_assoc | split; reflexivity].
Qed.

End KeyFileMode.

Lemma initMain_key_mode_witness :
  let run := initMain ["csr.json"] {| IsCA := false |} sample_world_csr in
  fst run = Ret None /\
  last (trace (snd run))
  = Some (EvWriteFile "/etc/hyperledger/fabric-ca/server-key.pem"
                      [x4b; x45; x59] 493 None) /\
  file_mode <$> (mem_files (ext (snd run))
                   !! "/etc/hyperledger/fabric-ca/server-key.pem")
  = Some 493%Z /\
  owner_only 493 = false.
Proof.
  intros run.
  assert (Hret : fst run = Ret None) by (vm_compute; reflexivity).
  destruct (initMain_key_mode ["csr.json"] {| IsCA := false |} sample_world_csr
              (snd run)) as (req & cert & key & home & _ & Hmode & _).
  { fold run. rewrite <- Hret. now destruct run. }
  split; [exact Hret|].
  split; [vm_compute; reflexivity|].
  split; [vm_compute; reflexivity | exact Hmode].
Defined.

(** ** Startup with a database type that is not supported *)

Section Startup.

Context {P : Platform}.

Lemma before_storage_refl w : before_storage w w.
Proof. constructor; eauto using emitted_refl. Qed.

Lemma before_storage_trans w1 w2 w3 :
  before_storage w1 w2 -> before_storage w2 w3 -> before_storage w1 w3.
Proof.
  intros [T1 D1 A1 R1 U1 M1 C1] [T2 D2 A2 R2 U2 M2 C2].
  constructor; try congruence.
  - intros c Hc. destruct (T1 c Hc) as (c1 & Hc1 & E1).
    destruct (T2 c1 Hc1) as (c2 & Hc2 & E2). exists c2. split; congruence.
  - eapply emitted_trans; eassumption.
Qed.

(** A step that touches neither the fields nor the calls that
    [before_storage] watches. *)
Ltac keep :=
  constructor; cbn;
  try reflexivity;
  try (apply emitted_none; reflexivity);
  try (apply emitted_one; reflexivity);
  try (let c0 := fresh "c" in
       let H0 := fresh "HC" in
       intros c0 H0;
       first
         [ eexists; split; [exact H0 | reflexivity]
         | match goal with
           | H : Config _ = Some _ |- _ =>
               cbn in H; rewrite H in H0; injection H0 as <-;
               eexists; split; reflexivity
           end ]).

Lemma before_storage_ensure_Config w : before_storage w (with_srv ensure_Config w).
Proof.
  constructor; unfold ensure_Config; cbn;
    destruct (Config (srv w)) as [c|] eqn:HC; cbn;
    try reflexivity; try (apply emitted_none; reflexivity).
  - intros c0 [= <-]. eauto.
  - discriminate.
Qed.

Lemma initConfig_before_storage : preserves before_storage initConfig.
Proof.
  unfold initConfig.
  preserve before_storage_refl before_storage_trans;
    try apply before_storage_ensure_Config; keep.
Qed.

Lemma initKeyMaterial_before_storage renew :
  preserves before_storage (initKeyMaterial renew).
Proof.
  unfold initKeyMaterial, makeFileNamesAbsolute, makeAbsolute,
    generateKeyMaterial, writeFile.
  preserve before_storage_refl before_storage_trans; keep.
Qed.

Lemma initKeyMaterial_returns renew :
  returns_under has_config (initKeyMaterial renew).
Proof.
  unfold initKeyMaterial, makeFileNamesAbsolute, makeAbsolute,
    generateKeyMaterial, writeFile.
  returning; assumption.
Qed.

(** [initConfig] returns [nil], returns an error, or panics because the
    BCCSP factories could not be initialised. *)
Lemma initConfig_outcome w :
  fst (initConfig w) = Ret None \/ startup_aborted (fst (initConfig w)).
Proof.
  revert w.
  cut (ends_with (fun _ => True)
         (fun o => o = Ret None \/ startup_aborted o) initConfig);
    [intros H w; now apply H|].
  unfold initConfig.
  apply ends_bind_under; [returning|intros s].
  apply ends_bind_under; [returning; exact Logic.I|].
  intros [e|].
  { apply ends_ret. right. left. eauto. }
  apply (ends_bind _ has_config).
  { intros w _. split; [now exists tt|]. unfold has_config, ensure_Config. cbn.
    destruct (Config (srv w)) eqn:HC; cbn; [rewrite HC|]; eauto. }
  intros _.
  apply ends_bind_under; [apply returns_the_Config|intros cfg].
  do 6 (apply ends_bind_under; [returning; assumption|intros _]).
  apply ends_bind_under; [apply returns_the_Config|intros cfg'].
  apply ends_bind_under; [returning; assumption|intros [e|]].
  - apply ends_panic. right. right. eauto.
  - apply ends_ret. now left.
Qed.

(** [initDB] with a type that is not supported: the error is returned
    before anything is opened. *)
Lemma initDB_unsupported w c :
  Config (srv w) = Some c ->
  ~ supported_db_type (db_Type (cfg_DB c)) ->
  exists e w',
    initDB w = (Ret (Some e), w') /\ same_outside w w' /\ before_storage w w'.
Proof.
  intros HC Hbad. unfold supported_db_type in Hbad. unfold initDB.
  assert (Hopen : forall d w0, db_Type d = db_Type (cfg_DB c) ->
            openDB d w0 = (Ret None, w0)).
  { intros d w0 Hd. unfold openDB. rewrite Hd.
    destruct (decide (db_Type (cfg_DB c) = "sqlite3")); [tauto|].
    destruct (decide (db_Type (cfg_DB c) = "postgres")); [tauto|].
    destruct (decide (db_Type (cfg_DB c) = "mysql")); [tauto|].
    reflexivity. }
  rewrite (bind_Ret _ _ _ _ _ (the_Config_Some _ _ HC)).
  rewrite bind_logf. set (w0 := with_log _ w).
  assert (HC0 : Config (srv w0) = Some c) by exact HC.
  destruct (decide (db_Type (cfg_DB c) = "")) as [E0|_]; [tauto|].
  rewrite bind_ret.
  destruct (decide (db_Datasource (cfg_DB c) = "")) as [E1|N1].
  - rewrite bind_Ret with
      (a := snd (util_MakeFileAbs "fabric-ca-server.db" (HomeDir (srv w0)) (ext w0)))
      (w' := match snd (util_MakeFileAbs "fabric-ca-server.db" (HomeDir (srv w0))
                          (ext w0)) with
             | Some _ => w0
             | None =>
                 with_srv (set_Config (Some (set_db_Datasource
                   (fst (util_MakeFileAbs "fabric-ca-server.db" (HomeDir (srv w0))
                           (ext w0))) c))) w0
             end).
    2: { rewrite bind_gets, bind_ask.
         destruct (util_MakeFileAbs _ _ _) as [ds [e|]]; [reflexivity|].
         cbn [fst snd].
         now rewrite (bind_Ret _ _ _ _ _ (update_Config_Some _ _ _ HC0)). }
    destruct (util_MakeFileAbs _ _ _) as [ds [e|]]; cbn [fst snd or_return].
    + eexists _, _. split; [reflexivity|]. split; [now split | subst w0; keep].
    + erewrite bind_Ret by (apply the_Config_Some; reflexivity).
      erewrite bind_Ret by (apply Hopen; reflexivity).
      eexists _, _. split; [reflexivity|].
      split; [now split | subst w0; keep].
  - rewrite bind_ret. cbn [or_return].
    rewrite (bind_Ret _ _ _ _ _ (the_Config_Some _ _ HC0)).
    rewrite (bind_Ret _ _ _ _ _ (Hopen _ _ eq_refl)).
    eexists _, _. split; [reflexivity|].
    split; [now split | subst w0; keep].
Qed.

Lemma Init_unsupported w c renew :
  Config (srv w) = Some c ->
  ~ supported_db_type (db_Type (cfg_DB c)) ->
  exists o w',
    Init renew w = (o, w') /\ startup_aborted o /\ before_storage w w'.
Proof.
  intros HC Hbad. unfold Init.
  pose proof (initConfig_outcome w) as Hout.
  pose proof (initConfig_before_storage w) as Hkept.
  destruct (initConfig w) as [o1 w1] eqn:H1. cbn [fst snd] in *.
  destruct Hout as [-> | [[e ->] | [e ->]]].
  - rewrite (bind_Ret _ _ _ _ _ H1). cbn [or_return].
    rewrite bind_ask, bind_modify. set (w2 := with_glob _ w1).
    assert (Hkept2 : before_storage w w2).
    { eapply before_storage_trans; [exact Hkept|]. subst w2. keep. }
    pose proof (initKeyMaterial_before_storage renew w2) as Hkept3.
    destruct (kept_db_Type _ _ Hkept2 c HC) as (c2 & HC2 & Hty2).
    destruct (initKeyMaterial_returns renew w2) as [[err3 Herr3] _];
      [now exists c2|].
    destruct (initKeyMaterial renew w2) as [o3 w3] eqn:H3.
    cbn [fst snd] in *. subst o3.
    assert (Hkept3' : before_storage w w3)
      by (eapply before_storage_trans; eassumption).
    rewrite (bind_Ret _ _ _ _ _ H3).
    destruct err3 as [e|]; cbn [or_return].
    { eexists _, _. split; [reflexivity|]. split; [left; eauto | exact Hkept3']. }
    destruct (kept_db_Type _ _ Hkept3' c HC) as (c3 & HC3 & Hty3).
    destruct (initDB_unsupported w3 c3 HC3) as (e & w4 & Hrun & _ & Hkept4).
    { now rewrite Hty3. }
    rewrite (bind_Ret _ _ _ _ _ Hrun). cbn [or_return].
    eexists _, _. split; [reflexivity|]. split; [left; eauto|].
    eapply before_storage_trans; eassumption.
  - rewrite (bind_Ret _ _ _ _ _ H1). cbn [or_return].
    eexists _, _. split; [reflexivity|]. split; [left; eauto | exact Hkept].
  - rewrite (bind_Panic _ _ _ _ _ H1).
    eexists _, _. split; [reflexivity|]. split; [right; eauto | exact Hkept].
Qed.

(** C6, as the code has it.  With a database type outside the supported
    set, [initDB] returns an error before it opens a database or touches
    the registry or the certificate store; [Init] and [Start] do not
    complete: each returns an error, unless the BCCSP factories cannot be
    initialised, in which case [initConfig] panics before [initDB] is
    reached.  In every case the database handle, the certificate store
    accessor and the registry are as they were and no storage call was
    made. *)
Theorem unsupported_db_type_aborts_startup (w : World) (c : ServerConfig) :
  Config (srv w) = Some c ->
  ~ supported_db_type (db_Type (cfg_DB c)) ->
  (exists e w',
     initDB w = (Ret (Some e), w') /\ same_outside w w' /\ before_storage w w') /\
  (forall renew, exists o w',
     Init renew w = (o, w') /\ startup_aborted o /\ before_storage w w') /\
  (exists o w',
     Start w = (o, w') /\ startup_aborted o /\ before_storage w w').
Proof.
  intros HC Hbad. split; [now apply (initDB_unsupported w c)|].
  split; [intros renew; now apply (Init_unsupported w c)|].
  unfold Start. rewrite bind_modify, bind_gets. set (w0 := with_srv _ w).
  assert (Hkept0 : before_storage w w0) by (subst w0; keep).
  destruct (listener (srv w0)) as [l|].
  { eexists _, _. split; [reflexivity|]. split; [left; eauto | exact Hkept0]. }
  destruct (kept_db_Type _ _ Hkept0 c HC) as (c0 & HC0 & Hty0).
  destruct (Init_unsupported w0 c0 false HC0) as (o1 & w1 & Hrun & Hab & Hkept1).
  { now rewrite Hty0. }
  assert (Hkept : before_storage w w1)
    by (eapply before_storage_trans; eassumption).
  destruct Hab as [[e ->] | [e ->]].
  - rewrite (bind_Ret _ _ _ _ _ Hrun). cbn [or_return].
    eexists _, _. split; [reflexivity|]. split; [left; eauto | exact Hkept].
  - rewrite (bind_Panic _ _ _ _ _ Hrun).
    eexists _, _. split; [reflexivity|]. split; [right; eauto | exact Hkept].
Qed.

End Startup.

Lemma unsupported_db_type_aborts_startup_witness :
  (exists e w',
     initDB (sample_world 0 "oracle") = (Ret (Some e), w') /\
     same_outside (sample_world 0 "oracle") w' /\
     before_storage (sample_world 0 "oracle") w') /\
  (forall renew, exists o w',
     Init renew (sample_world 0 "oracle") = (o, w') /\
     startup_aborted o /\ before_storage (sample_world 0 "oracle") w') /\
  (exists o w',
     Start (sample_world 0 "oracle") = (o, w') /\
     startup_aborted o /\ before_storage (sample_world 0 "oracle") w').
Proof.
  apply (unsupported_db_type_aborts_startup (sample_world 0 "oracle")
           (sample_config 0 "oracle" None) eq_refl).
  unfold supported_db_type. cbn. intros [H|[H|[H|H]]]; discriminate H.
Defined.

(** With the type ["oracle"] and a BCCSP provider that does not exist,
    [Init] and [Start] panic: neither returns an error. *)
Lemma unsupported_db_type_Init_panics :
  Config (srv (sample_world_bad_csp "oracle"))
  = Some (sample_config 0 "oracle" (Some {| ProviderName := "PKCS11" |})) /\
  ~ supported_db_type "oracle" /\
  ~ (exists e, fst (Init false (sample_world_bad_csp "oracle")) = Ret (Some e)) /\
  ~ (exists e, fst (Start (sample_world_bad_csp "oracle")) = Ret (Some e)).
Proof.
  split; [reflexivity|]. split.
  { unfold supported_db_type. intros [H|[H|[H|H]]]; discriminate H. }
  assert (HInit : fst (Init false (sample_world_bad_csp "oracle"))
    = Panic (PanicError (Errorf "Could not initialize BCCSP Factories [%s]"
        [FErr (Some (ExtError "bccsp/factory" "Could not find default BCCSP"))])))
    by (vm_compute; reflexivity).
  assert (HStart : fst (Start (sample_world_bad_csp "oracle"))
    = Panic (PanicError (Errorf "Could not initialize BCCSP Factories [%s]"
        [FErr (Some (ExtError "bccsp/factory" "Could not find default BCCSP"))])))
    by (vm_compute; reflexivity).
  split; intros [e He]; [rewrite HInit in He | rewrite HStart in He];
    discriminate He.
Qed.

(** ** Bootstrap content and an existing database *)

Section BootstrapGate.

Context {P : Platform}.

Lemma parents_known_registry known evs :
  parents_known known evs -> Forall (fun ev => is_registry_call ev = true) evs.
Proof.
  revert known. induction evs as [|ev evs IH]; intros known H; [constructor|].
  destruct ev; try easy. destruct H as [_ H]. constructor; [reflexivity|].
  now apply (IH _ H).
Qed.

Lemma preserves_weaken (R R' : World -> World -> Prop) {A} (c : M World A) :
  (forall w w', R w w' -> R' w w') -> preserves R c -> preserves R' c.
Proof. intros H Hc w. apply H, Hc. Qed.

Lemma loadUsersTable_calls :
  preserves (emitted (fun ev => is_registry_call ev = true)) loadUsersTable.
Proof.
  unfold loadUsersTable, addIdentity, getMaxEnrollments.
  preserve (emitted_refl (fun ev => is_registry_call ev = true))
           (emitted_trans (fun ev => is_registry_call ev = true));
    first [ apply emitted_none; reflexivity | apply emitted_one; reflexivity ].
Qed.

Lemma loadAffiliationsTable_calls :
  preserves (emitted (fun ev => is_registry_call ev = true)) loadAffiliationsTable.
Proof.
  apply (preserves_weaken (inserted_under "")); [|apply preserves_loadAffiliationsTable].
  intros w w' (evs & Htr & Hk). exists evs. split; [exact Htr|].
  now apply (parents_known_registry [""]).
Qed.

Lemma initDB_opened_calls existed :
  preserves (emitted (after_open existed None)) (initDB_opened existed).
Proof.
  pose proof (emitted_refl (after_open existed None)) as Hrefl.
  pose proof (emitted_trans (after_open existed None)) as Htrans.
  assert (Hload : existed = false ->
    forall w w', emitted (fun ev => is_registry_call ev = true) w w' ->
                 emitted (after_open existed None) w w').
  { intros -> w w'. apply emitted_weaken. intros ev Hev. split; [|auto].
    now destruct ev. }
  unfold initDB_opened, initUserRegistry.
  destruct existed; cbn [negb];
    preserve Hrefl Htrans;
    try (apply emitted_none; reflexivity);
    try (apply emitted_one; split; [reflexivity | discriminate]).
  - eapply preserves_weaken; [apply Hload; reflexivity | apply loadUsersTable_calls].
  - eapply preserves_weaken;
      [apply Hload; reflexivity | apply loadAffiliationsTable_calls].
Qed.

(** [openDB] calls nothing when the type is not supported, and else makes
    one call, which tells whether the database existed. *)
Lemma openDB_cases d w :
  openDB d w = (Ret None, w) \/
  exists driver conn existed err e',
    openDB d w = (Ret (Some (conn, existed, err)),
                  with_call e' (EvOpenDB driver (db_Datasource d) existed err) w).
Proof.
  unfold openDB.
  destruct (decide (db_Type d = "sqlite3")); [right|].
  { rewrite bind_Ret with (a := fst (dbutil_NewUserRegistrySQLLite3 (db_Datasource d) (ext w)))
      (w' := with_call (snd (dbutil_NewUserRegistrySQLLite3 (db_Datasource d) (ext w)))
               (EvOpenDB "sqlite3" (db_Datasource d)
                  (snd (fst (fst (dbutil_NewUserRegistrySQLLite3 (db_Datasource d) (ext w)))))
                  (snd (fst (dbutil_NewUserRegistrySQLLite3 (db_Datasource d) (ext w))))) w);
      [|unfold call; now destruct (dbutil_NewUserRegistrySQLLite3 _ _)].
    destruct (dbutil_NewUserRegistrySQLLite3 _ _) as [[[conn existed] err] e'].
    now exists "sqlite3", conn, existed, err, e'. }
  destruct (decide (db_Type d = "postgres")); [right|].
  { rewrite bind_Ret with (a := fst (dbutil_NewUserRegistryPostgres (db_Datasource d) (db_TLS d) (ext w)))
      (w' := with_call (snd (dbutil_NewUserRegistryPostgres (db_Datasource d) (db_TLS d) (ext w)))
               (EvOpenDB "postgres" (db_Datasource d)
                  (snd (fst (fst (dbutil_NewUserRegistryPostgres (db_Datasource d) (db_TLS d) (ext w)))))
                  (snd (fst (dbutil_NewUserRegistryPostgres (db_Datasource d) (db_TLS d) (ext w))))) w);
      [|unfold call; now destruct (dbutil_NewUserRegistryPostgres _ _ _)].
    destruct (dbutil_NewUserRegistryPostgres _ _ _) as [[[conn existed] err] e'].
    now exists "postgres", conn, existed, err, e'. }
  destruct (decide (db_Type d = "mysql")); [right|now left].
  rewrite bind_Ret with (a := fst (dbutil_NewUserRegistryMySQL (db_Datasource d) (db_TLS d) (ext w)))
    (w' := with_call (snd (dbutil_NewUserRegistryMySQL (db_Datasource d) (db_TLS d) (ext w)))
             (EvOpenDB "mysql" (db_Datasource d)
                (snd (fst (fst (dbutil_NewUserRegistryMySQL (db_Datasource d) (db_TLS d) (ext w)))))
                (snd (fst (dbutil_NewUserRegistryMySQL (db_Datasource d) (db_TLS d) (ext w))))) w);
    [|unfold call; now destruct (dbutil_NewUserRegistryMySQL _ _ _)].
  destruct (dbutil_NewUserRegistryMySQL _ _ _) as [[[conn existed] err] e'].
  now exists "mysql", conn, existed, err, e'.
Qed.

Lemma gated_none w w' : trace w' = trace w -> gated w w'.
Proof. intros H. exists []. split; [now rewrite app_nil_r | now left]. Qed.

(** Steps that call nothing may come before gated calls. *)
Lemma gated_after_quiet {A B} (c : M World A) (k : A -> M World B) :
  preserves same_outside c -> (forall a, preserves gated (k a)) ->
  preserves gated (bind c k).
Proof.
  intros Hc Hk w. destruct (Hc w) as [_ Htr].
  destruct (bind_snd c k w) as [-> | (a & _ & ->)]; [now apply gated_none|].
  destruct (Hk a (snd (c w))) as (evs & Hevs & Hg).
  exists evs. split; [now rewrite Hevs, Htr | exact Hg].
Qed.

Lemma initDB_gated : preserves gated initDB.
Proof.
  unfold initDB.
  apply gated_after_quiet;
    [preserve same_outside_refl same_outside_trans|intros c].
  apply gated_after_quiet;
    [preserve same_outside_refl same_outside_trans; now split|intros _].
  apply gated_after_quiet;
    [preserve same_outside_refl same_outside_trans; now split|intros _].
  apply gated_after_quiet;
    [preserve same_outside_refl same_outside_trans; now split|intros [e|]].
  { intros w. now apply gated_none. }
  cbn [or_return].
  apply gated_after_quiet;
    [preserve same_outside_refl same_outside_trans|intros c1].
  intros w.
  destruct (openDB_cases (cfg_DB c1) w)
    as [Hrun | (driver & conn & existed & err & e' & Hrun)];
    rewrite (bind_Ret _ _ _ _ _ Hrun).
  { now apply gated_none. }
  rewrite bind_modify.
  destruct err as [e|]; cbn [or_return].
  - exists [EvOpenDB driver (db_Datasource (cfg_DB c1)) existed (Some e)].
    split; [reflexivity|]. right. now exists driver, (db_Datasource (cfg_DB c1)), existed, (Some e), [].
  - match goal with |- gated _ (snd (initDB_opened existed ?w4)) =>
      destruct (initDB_opened_calls existed w4) as (rest & Htr & Hrest) end.
    exists (EvOpenDB driver (db_Datasource (cfg_DB c1)) existed None :: rest).
    split; [rewrite Htr; cbn; now rewrite <- app_assoc|].
    right. now exists driver, (db_Datasource (cfg_DB c1)), existed, None, rest.
Qed.

(** C10. Among the calls that [initDB] makes, the registry is used (the
    bootstrap identities and affiliations are loaded) only after a call
    that opened, without error, a database that did not exist; when the
    call that opens the database reports that it exists, no call to the
    registry follows, whatever the configuration lists. *)
Theorem initDB_bootstrap_only_into_new_database (w : World) :
  exists evs,
    trace (snd (initDB w)) = (trace w ++ evs)%list /\
    (forall driver datasource r,
       In (EvOpenDB driver datasource true r) evs ->
       forall ev, In ev evs -> is_registry_call ev = false) /\
    (forall ev, In ev evs -> is_registry_call ev = true ->
       exists driver datasource, In (EvOpenDB driver datasource false None) evs).
Proof.
  destruct (initDB_gated w) as (evs & Htr & Hg). exists evs.
  split; [exact Htr|].
  destruct Hg as [-> | (driver & ds & existed & err & rest & -> & Hrest)].
  { split; intros; contradiction. }
  rewrite Forall_forall in Hrest. split.
  - intros driver' ds' r [Hhead | Hin].
    + injection Hhead as _ _ -> _.
      intros ev [<- | Hev]; [reflexivity|].
      destruct (Hrest ev) as [_ Hreg].
      { now apply list_elem_of_In. }
      destruct (is_registry_call ev); [|reflexivity].
      now destruct (Hreg eq_refl).
    + destruct (Hrest (EvOpenDB driver' ds' true r)) as [Hopen _].
      { now apply list_elem_of_In. }
      discriminate Hopen.
  - intros ev [<- | Hev] Hreg; [discriminate Hreg|].
    destruct (Hrest ev) as [_ Hgate].
    { now apply list_elem_of_In. }
    destruct (Hgate Hreg) as [-> ->]. exists driver, ds. now left.
Qed.

End BootstrapGate.

(** The database exists: the registry stays empty although the
    configuration lists an identity and a tree of affiliations.  The
    database is new: both are loaded. *)
Example initDB_existing_database :
  fst (initDB sample_world_existing_db) = Ret None /\
  mem_users (ext (snd (initDB sample_world_existing_db))) = ∅ /\
  mem_groups (ext (snd (initDB sample_world_existing_db))) = ∅ /\
  map fst (map_to_list (mem_users (ext (snd (initDB (sample_world 3 "sqlite3"))))))
  = ["alice"] /\
  size (mem_groups (ext (snd (initDB (sample_world 3 "sqlite3"))))) = 6.
Proof. split; [|split; [|split; [|split]]]; vm_compute; reflexivity. Qed.
